(** * Batched upload of config lines: the cache, the batcher and the sync loop

    A shallow embedding of [addConfigLines] and of the collection-creation
    command of the candy-machine command line tool, in its two versions
    (lorelabs-cli-v2.ts, which talks to the v2 program, and the older
    command file, which talks to the v1 config account).  *)

From Stdlib Require Import String DecimalString.
From Stdlib Require Import List Arith Lia Bool PeanoNat.
Import ListNotations.

Set Implicit Arguments.

(** ** JavaScript array helpers *)

Module Js.

(** [array.slice(a, b)]: the elements at positions [a <= p < min b length]. *)
Definition slice {A : Type} (array : list A) (a b : nat) : list A :=
  firstn (b - a) (skipn a array).

(** [Array.from(Array(n).keys())]: the indices [0, 1, ..., n-1]. *)
Definition range (n : nat) : list nat := seq 0 n.

End Js.

(** ** The batcher *)

Module Batcher.
Import Js.

(** Modelled from the spec: [chunks] of helpers/various is imported by both
    command files and is not part of the sources at hand.  Section 4.2 has the
    batcher cut "an ordered index range into fixed-size slices", in order; the
    slice number [index] holds the positions [index*size .. (index+1)*size),
    and there are [ceil (length / size)] of them. *)
Definition chunks {A : Type} (array : list A) (size : nat) : list (list A) :=
  map (fun index => slice array (index * size) ((index + 1) * size))
      (seq 0 ((length array + size - 1) / size)).

(** The values [indexes] takes in
      [for (let offset = 0; offset < allIndexesInSlice.length; offset += 10)
         const indexes = allIndexesInSlice.slice(offset, offset + 10);]
    in loop order.  [fuel] bounds the number of iterations. *)
Fixpoint forOffsets {A : Type} (fuel offset : nat) (allIndexesInSlice : list A)
  : list (list A) :=
  match fuel with
  | 0 => []
  | S fuel' =>
      if offset <? length allIndexesInSlice
      then slice allIndexesInSlice offset (offset + 10)
             :: forOffsets fuel' (offset + 10) allIndexesInSlice
      else []
  end.

(** Every iteration moves [offset] forward, so [length] iterations are
    enough (see [forOffsets_fuel]). *)
Definition innerBatches {A : Type} (allIndexesInSlice : list A) : list (list A) :=
  forOffsets (length allIndexesInSlice) 0 allIndexesInSlice.

(** [chunks(Array.from(Array(keys.length).keys()), 1000)] with the inner loop
    run over every slice: the outer chunks, each as its list of inner
    batches. *)
Definition partition (totalCount : nat) : list (list (list nat)) :=
  map innerBatches (chunks (range totalCount) 1000).

End Batcher.

(** ** The cache *)

Module Cache.

(** One entry of [cacheContent.items].  [onChain] and [verifyRun] are
    optional properties: [None] is a property that is not there. *)
Record ItemRecord := mkItem {
  name : string;
  link : string;
  onChain : option bool;
  verifyRun : option bool
}.

(** [cacheContent.items], a JavaScript object used as a map from a string key
    to an item: the properties in the order [Object.keys] lists them. *)
Definition Items := list (string * ItemRecord).

(** [Object.keys(items)] *)
Definition keysOf (o : Items) : list string := map fst o.

(** [items[k]] *)
Fixpoint get (o : Items) (k : string) : option ItemRecord :=
  match o with
  | [] => None
  | (k', it) :: o' => if String.eqb k' k then Some it else get o' k
  end.

(** Assignments to the properties of [items[k]], as [f]. *)
Fixpoint alter (f : ItemRecord -> ItemRecord) (k : string) (o : Items) : Items :=
  match o with
  | [] => []
  | (k', it) :: o' =>
      if String.eqb k' k then (k', f it) :: o' else (k', it) :: alter f k o'
  end.

(** [cacheContent.program]: its [uuid] and the address of the remote
    collection, which the v2 command stores as [candyMachine] and the older
    command as [config]. *)
Record Program := mkProgram {
  uuid : string;
  candyMachine : option string;
  config : option string
}.

Record CacheContent := mkCache {
  program : option Program;
  authority : option string;
  items : option Items
}.

(** [{}] *)
Definition emptyObject : CacheContent :=
  {| program := None; authority := None; items := None |}.

(** [x || false] and [!x] on an optional boolean. *)
Definition truthy (x : option bool) : bool :=
  match x with Some true => true | _ => false end.

(** Truth value of an optional string: a missing and an empty string are
    false. *)
Definition truthyString (x : option string) : bool :=
  match x with Some s => negb (String.eqb s "") | None => false end.

(** The loaded object after assignments inside [cacheContent.items]. *)
Definition withItems (c : CacheContent) (o : Items) : CacheContent :=
  {| program := program c; authority := authority c; items := Some o |}.

(** Modelled from the spec: [loadCache] of helpers/cache is not part of the
    sources at hand.  Section 4.1: "load(collectionId) -> CollectionCache |
    NotFound"; the file either holds a cache or is not there, and a cache that
    is not there reads as [undefined]. *)
Definition loadCache (file : option CacheContent) : option CacheContent := file.

(** Modelled from the spec: [saveCache] of helpers/cache is not part of the
    sources at hand.  Section 4.1: "save(collectionId, CollectionCache) ->
    success | IOError", atomic: when it works ([ok]) the file holds the
    structure, when it fails it throws and the file is as it was.  The result
    is the file afterwards. *)
Definition saveCache (ok : bool) (file : option CacheContent) (c : CacheContent)
  : option CacheContent :=
  if ok then Some c else file.

End Cache.

(** ** The sync loop *)

Module Sync.
Import Js Batcher Cache.

(** The two command files. *)
Inductive version := CliV2 | CliV1.

(** What a thrown value is. *)
Inductive exn :=
| TypeError                  (* a property read on [undefined], [Object.keys(undefined)] *)
| Error (message : string)   (* [throw new Error(message)] *)
| IOError                    (* [saveCache] failed *)
| RemoteError                (* a remote call was rejected *)
| SetupError.                (* wallet, program or settings could not be loaded *)

(** The arguments of one [anchorProgram.rpc.addConfigLines] call, with the
    [indexes] it was built from. *)
Record Call := mkCall {
  indexes : list nat;
  ind : option string;
  configs : list (string * string)
}.

(** How an inner batch that was submitted ended. *)
Inductive settle := Committed | CommitFailed | SaveFailed.

(** One [async allIndexesInSlice => ...] task: suspended at the [await] of the
    call for [indexes], with the loop iterations [rest] still to run, or
    returned. *)
Inductive task :=
| Awaiting (current : list nat) (rest : list (list nat))
| Finished.

Record state := mkState {
  cacheItems : Items;               (* [cacheContent.items], shared by the tasks *)
  disk : option CacheContent;       (* what the cache file holds *)
  addConfigSuccessful : bool;
  tasks : list task;
  calls : list Call;                (* remote calls made so far, oldest first *)
  settled : list (list nat * settle) (* submitted batches that have returned *)
}.

(** What the event loop does next: the call of task [who] returns
    ([rpcOk]: fulfilled or rejected), and the [saveCache] that follows a
    fulfilled call works or throws ([saveOk]). *)
Record decision := mkDecision { who : nat; rpcOk : bool; saveOk : bool }.

(** How the batch of a resumed task ends. *)
Definition settleOf (d : decision) : settle :=
  if rpcOk d then (if saveOk d then Committed else SaveFailed) else CommitFailed.

Fixpoint setNth {A : Type} (n : nat) (x : A) (l : list A) : list A :=
  match l, n with
  | [], _ => []
  | _ :: l', 0 => x :: l'
  | y :: l', S n' => y :: setNth n' x l'
  end.

Definition handle (v : version) (p : Program) : option string :=
  match v with CliV2 => candyMachine p | CliV1 => config p end.

(** The assignments of the [forEach] after a fulfilled call. *)
Definition commitMark (v : version) (it : ItemRecord) : ItemRecord :=
  match v with
  | CliV2 => {| name := name it; link := link it;
                onChain := Some true; verifyRun := Some false |}
  | CliV1 => {| name := name it; link := link it;
                onChain := Some true; verifyRun := verifyRun it |}
  end.

Section Loop.

Variable v : version.
(** [const keys = Object.keys(cacheContent.items)], taken once before the loop. *)
Variable keys : list string.
(** The object [loadCache] returned, for the properties the loop leaves alone. *)
Variable loaded : CacheContent.

(** [cacheContent.items[keys[i]]] *)
Definition itemAt (o : Items) (i : nat) : option ItemRecord :=
  match nth_error keys i with
  | Some k => get o k
  | None => None
  end.

(** [cacheContent.items[keys[i]].onChain || false].  The indices come from
    [range (length keys)], so the item is there (see [itemAt_range]). *)
Definition isOnChain (o : Items) (i : nat) : bool :=
  match itemAt o i with
  | Some it => truthy (onChain it)
  | None => false
  end.

(** [{ uri: items[keys[i]].link, name: items[keys[i]].name }] *)
Definition configLine (o : Items) (i : nat) : string * string :=
  match itemAt o i with
  | Some it => (link it, name it)
  | None => (EmptyString, EmptyString)
  end.

(** [ind = keys[indexes[0]]] and [configs = indexes.map(...)] *)
Definition callFor (o : Items) (batch : list nat) : Call :=
  {| indexes := batch;
     ind := match batch with i :: _ => nth_error keys i | [] => None end;
     configs := map (configLine o) batch |}.

(** The loop from one iteration on, up to the next [await] or to its end:
    a batch whose indices are all on chain is passed over, the first other
    batch is submitted.  [iterations] holds the values of [indexes] of the
    iterations to come ([allIndexesInSlice] is never assigned to, so they are
    the rest of its [innerBatches]). *)
Fixpoint advance (o : Items) (iterations : list (list nat)) : task * list Call :=
  match iterations with
  | [] => (Finished, [])
  | batch :: rest =>
      let onChainIdx := filter (isOnChain o) batch in
      if negb (length onChainIdx =? length batch)
      then (Awaiting batch rest, [callFor o batch])
      else advance o rest
  end.

(** [indexes.forEach(i => { items[keys[i]].onChain = true; ... })], one index
    and all of them.  (An index with no key is never met: the indices are
    below [length keys].) *)
Definition markOne (o : Items) (i : nat) : Items :=
  match nth_error keys i with
  | Some k => alter (commitMark v) k o
  | None => o
  end.

Definition markAll (batch : list nat) (o : Items) : Items :=
  fold_left markOne batch o.

(** A suspended task goes on.  A fulfilled call is followed by the [forEach]
    and by [saveCache]; a rejected call, and also a [saveCache] that throws,
    lands in the [catch] block, which clears [addConfigSuccessful].  Then the
    loop runs up to the next [await].  A decision for a task that is not
    suspended changes nothing. *)
Definition resume (d : decision) (st : state) : state :=
  match nth_error (tasks st) (who d) with
  | Some (Awaiting batch rest) =>
      let o' := if rpcOk d then markAll batch (cacheItems st) else cacheItems st in
      let how := settleOf d in
      let '(t, issued) := advance o' rest in
      {| cacheItems := o';
         disk := if rpcOk d
                 then saveCache (saveOk d) (disk st) (withItems loaded o')
                 else disk st;
         addConfigSuccessful := match how with
                                | Committed => addConfigSuccessful st
                                | _ => false
                                end;
         tasks := setNth (who d) t (tasks st);
         calls := calls st ++ issued;
         settled := settled st ++ [(batch, how)] |}
  | _ => st
  end.

Definition exec (schedule : list decision) (st : state) : state :=
  fold_left (fun s d => resume d s) schedule st.

(** [chunks(...).map(async ...)] starts the tasks one after the other; each
    runs up to its first [await]. *)
Fixpoint startAll (o : Items) (slices : list (list (list nat)))
  : list task * list Call :=
  match slices with
  | [] => ([], [])
  | iterations :: more =>
      let '(t, issued) := advance o iterations in
      let '(ts, issued') := startAll o more in
      (t :: ts, issued ++ issued')
  end.

Definition initial (o : Items) : state :=
  let '(ts, issued) := startAll o (partition (length keys)) in
  {| cacheItems := o;
     disk := Some loaded;
     addConfigSuccessful := true;
     tasks := ts;
     calls := issued;
     settled := [] |}.

Definition isFinished (t : task) : bool :=
  match t with Finished => true | Awaiting _ _ => false end.

(** [Promise.all] is fulfilled. *)
Definition allFinished (st : state) : bool := forallb isFinished (tasks st).

End Loop.

(** *** Bookkeeping used to state the properties *)

(** The loop iterations a task has not settled yet, the awaited one first. *)
Definition taskBatches (t : task) : list (list nat) :=
  match t with
  | Awaiting current rest => current :: rest
  | Finished => []
  end.

Definition pendingBatches (ts : list task) : list (list nat) :=
  concat (map taskBatches ts).

Definition isCommitted (s : settle) : bool :=
  match s with Committed => true | _ => false end.

Definition succeededBatches (l : list (list nat * settle)) : nat :=
  length (filter (fun p => isCommitted (snd p)) l).

Definition failedBatches (l : list (list nat * settle)) : nat :=
  length (filter (fun p => negb (isCommitted (snd p))) l).

(** The indices of the batches that have settled. *)
Definition settledIdx (l : list (list nat * settle)) : list nat :=
  concat (map fst l).

Definition occ (i : nat) (l : list nat) : nat := count_occ Nat.eq_dec l i.

(** What the loop may do to an item: [name] and [link] stay, [onChain] once
    true stays true, and [verifyRun] stays as it is in the older file and,
    once false, stays false in the v2 file. *)
Definition evolves (v : version) (it it' : ItemRecord) : Prop :=
  name it' = name it /\ link it' = link it
  /\ (truthy (onChain it) = true -> truthy (onChain it') = true)
  /\ match v with
     | CliV1 => verifyRun it' = verifyRun it
     | CliV2 => verifyRun it = Some false -> verifyRun it' = Some false
     end.

Definition optRel {A B : Type} (R : A -> B -> Prop) (a : option A) (b : option B) : Prop :=
  match a, b with
  | Some x, Some y => R x y
  | None, None => True
  | _, _ => False
  end.

(** Two items that differ at most in [verifyRun]. *)
Definition sameLine (it1 it2 : ItemRecord) : Prop :=
  name it1 = name it2 /\ link it1 = link it2 /\ onChain it1 = onChain it2.

(** Two [items] objects with the same keys in the same order, whose items
    differ at most in [verifyRun]. *)
Definition agree (o1 o2 : Items) : Prop :=
  Forall2 (fun e1 e2 => fst e1 = fst e2 /\ sameLine (snd e1) (snd e2)) o1 o2.

(** The first task that is suspended. *)
Fixpoint firstAwaiting (ts : list task) : option nat :=
  match ts with
  | [] => None
  | Finished :: ts' => option_map S (firstAwaiting ts')
  | Awaiting _ _ :: _ => Some 0
  end.

(** The same decision with a [saveCache] that works. *)
Definition savesWork (d : decision) : decision :=
  {| who := who d; rpcOk := rpcOk d; saveOk := true |}.

(** The schedule in which every call is fulfilled and every save works, the
    first suspended task going on first; it is long enough when [fuel] is at
    least the number of pending batches. *)
Fixpoint drain (v : version) (keys : list string) (loaded : CacheContent)
    (fuel : nat) (st : state) : list decision :=
  match fuel with
  | 0 => []
  | S fuel' =>
      match firstAwaiting (tasks st) with
      | None => []
      | Some j =>
          let d := {| who := j; rpcOk := true; saveOk := true |} in
          d :: drain v keys loaded fuel' (resume v keys loaded d st)
      end
  end.

(** How a command ended: it threw, it printed [Done. Successful = ...], or
    (the schedule given was too short) calls are still in flight. *)
Inductive completion :=
| Threw (e : exn)
| Done (successful : bool)
| InFlight.

Record Run := mkRun {
  outcome : completion;
  stored : option CacheContent;        (* the cache file afterwards *)
  remote : list Call;                  (* [addConfigLines] calls made *)
  ledger : list (list nat * settle);
  memory : Items
}.

Definition aborted (e : exn) (file : option CacheContent) : Run :=
  {| outcome := Threw e; stored := file; remote := []; ledger := []; memory := [] |}.

(** [addConfigLines(cacheName, env, anchorProgram, walletKeyPair)] on the
    cache file [file].  The reads before the [try] throw on a cache that lacks
    what they read.  Inside the tasks nothing throws outside the inner [try]
    (the items read are there), so the outer [catch] has nothing to log; the
    [saveCache] of the [finally] block is not inside any [try], and the line
    [Done. Successful = ...] is printed only when it returns. *)
Definition addConfigLines (v : version) (file : option CacheContent)
    (schedule : list decision) (finalSaveOk : bool) : Run :=
  match loadCache file with
  | None => aborted TypeError file
  | Some cacheContent =>
      match program cacheContent with
      | None => aborted TypeError file
      | Some p =>
          if negb (truthyString (handle v p))
          then aborted (Error "missing program config") file
          else
            match items cacheContent with
            | None => aborted TypeError file
            | Some o =>
                let keys := keysOf o in
                let st := exec v keys cacheContent schedule
                               (initial keys cacheContent o) in
                {| outcome := if allFinished st
                              then (if finalSaveOk
                                    then Done (addConfigSuccessful st)
                                    else Threw IOError)
                              else InFlight;
                   stored := if allFinished st
                             then saveCache finalSaveOk (disk st)
                                    (withItems cacheContent (cacheItems st))
                             else disk st;
                   remote := calls st;
                   ledger := settled st;
                   memory := cacheItems st |}
            end
      end
  end.

End Sync.

(** ** Creating the collection *)

Module Create.
Import Js Batcher Cache Sync.

(** What the world does during [create_candy_machine]
    ([create_candy_machine_configs] in the older file): whether the wallet, the
    program and the settings load; what the creation call returns ([uuid] and
    address, or a rejection); the public key of the wallet; whether the
    [saveCache] after the creation works; and what happens during the
    [addConfigLines] that follows. *)
Record World := mkWorld {
  setupOk : bool;
  created : option (string * string);
  walletKey : string;
  createSaveOk : bool;
  schedule : list decision;
  finalSaveOk : bool
}.

(** A remote call: the creation of the collection for so many items, or one
    [addConfigLines] call. *)
Inductive RemoteCall :=
| CreateCollection (itemsAvailable : nat)
| AddConfigLines (c : Call).

Record Outcome := mkOutcome {
  ended : completion;
  file : option CacheContent;
  remoteCalls : list RemoteCall
}.

(** [cacheContent.program = {}; program.uuid = ...; program.candyMachine = ...]
    (or [program.config = ...]) *)
Definition newProgram (v : version) (id address : string) : Program :=
  match v with
  | CliV2 => {| uuid := id; candyMachine := Some address; config := None |}
  | CliV1 => {| uuid := id; candyMachine := None; config := Some address |}
  end.

Definition create_candy_machine (v : version) (cacheFile : option CacheContent)
    (w : World) : Outcome :=
  let cacheContent :=
    match loadCache cacheFile with Some c => c | None => emptyObject end in
  match program cacheContent with
  | Some _ =>
      {| ended := Threw (Error "a program existed previously. clear it our first if you intent to create a new candy machine");
         file := cacheFile; remoteCalls := [] |}
  | None =>
      match items cacheContent with
      | None =>
          (* [Object.keys(items)] on [undefined] *)
          {| ended := Threw TypeError; file := cacheFile; remoteCalls := [] |}
      | Some o =>
          let keys := keysOf o in
          if length keys =? 0
          then {| ended := Threw (Error "no items in cacheContent");
                  file := cacheFile; remoteCalls := [] |}
          else if negb (setupOk w)
          then {| ended := Threw SetupError; file := cacheFile; remoteCalls := [] |}
          else
            match created w with
            | None =>
                {| ended := Threw RemoteError; file := cacheFile;
                   remoteCalls := [CreateCollection (length keys)] |}
            | Some (id, address) =>
                let cacheContent' :=
                  {| program := Some (newProgram v id address);
                     authority := Some (walletKey w);
                     items := items cacheContent |} in
                if createSaveOk w
                then
                  let r := addConfigLines v
                             (saveCache true cacheFile cacheContent')
                             (schedule w) (finalSaveOk w) in
                  {| ended := outcome r; file := stored r;
                     remoteCalls := CreateCollection (length keys)
                                      :: map AddConfigLines (remote r) |}
                else
                  {| ended := Threw IOError;
                     file := saveCache false cacheFile cacheContent';
                     remoteCalls := [CreateCollection (length keys)] |}
            end
      end
  end.

End Create.

(** ** Sample caches *)

Module Sample.
Import Js Batcher Cache Sync Create.

Definition key (i : nat) : string := NilEmpty.string_of_uint (Nat.to_uint i).

Definition item (oc vr : option bool) (i : nat) : string * ItemRecord :=
  (key i, {| name := String.append "item " (key i);
             link := String.append "uri://" (key i);
             onChain := oc; verifyRun := vr |}).

(** The [program] the v2 creation command writes. *)
Definition v2Program : Program :=
  {| uuid := "u1"; candyMachine := Some "CM1"%string; config := None |}.

(** A [program] that holds both addresses. *)
Definition bothProgram : Program :=
  {| uuid := "u1"; candyMachine := Some "CM1"%string; config := Some "CFG1"%string |}.

Definition cacheOf (p : Program) (o : Items) : CacheContent :=
  {| program := Some p; authority := Some "wallet"%string; items := Some o |}.

(** [n] items, none of them on chain. *)
Definition fresh (n : nat) : Items := map (item None None) (seq 0 n).

(** Ten items, the first three on chain. *)
Definition resumed : Items :=
  map (item (Some true) None) (seq 0 3) ++ map (item None None) (seq 3 7).

(** One item that has never been submitted and carries [verifyRun] true. *)
Definition verified : Items := [item None (Some true) 0].

Definition ok (t : nat) : decision := {| who := t; rpcOk := true; saveOk := true |}.
Definition rejected (t : nat) : decision := {| who := t; rpcOk := false; saveOk := true |}.
Definition saveFails (t : nat) : decision := {| who := t; rpcOk := true; saveOk := false |}.

(** Five calls of the one task of a cache of fifty items: the second is
    rejected; the first two are rejected. *)
Definition oneRejected : list decision := [ok 0; rejected 0; ok 0; ok 0; ok 0].
Definition twoRejected : list decision := [rejected 0; rejected 0; ok 0; ok 0; ok 0].

End Sample.

(** * Properties *)

(** ** Arrays *)

Module JsFacts.
Import Js.

Lemma slice_length {A : Type} (l : list A) a b :
  length (slice l a b) = Nat.min (b - a) (length l - a).
Proof.
  unfold slice. rewrite length_firstn, length_skipn. reflexivity.
Qed.

Lemma skipn_seq s n a : skipn a (seq s n) = seq (s + a) (n - a).
Proof.
  revert s n. induction a as [|a IH]; intros s n.
  - rewrite Nat.add_0_r, Nat.sub_0_r. reflexivity.
  - destruct n as [|n]; [reflexivity|].
    cbn [seq skipn]. rewrite IH. f_equal; lia.
Qed.

Lemma firstn_seq s n a : firstn a (seq s n) = seq s (Nat.min a n).
Proof.
  revert s n. induction a as [|a IH]; intros s n; [reflexivity|].
  destruct n as [|n]; [reflexivity|].
  cbn [seq firstn Nat.min]. now rewrite IH.
Qed.

(** A slice of a run of consecutive numbers is a run of consecutive numbers. *)
Lemma slice_seq s n a b :
  slice (seq s n) a b = seq (s + a) (Nat.min (b - a) (n - a)).
Proof.
  unfold slice. now rewrite skipn_seq, firstn_seq.
Qed.

Lemma skipn_add {A : Type} (l : list A) a b :
  skipn (a + b) l = skipn b (skipn a l).
Proof.
  revert l. induction a as [|a IH]; intros l; [reflexivity|].
  destruct l as [|x l]; [now rewrite !skipn_nil|].
  cbn [Nat.add skipn]. apply IH.
Qed.

(** Consecutive slices of the same width glue back together. *)
Lemma slice_glue {A : Type} (l : list A) a w :
  slice l a (a + w) ++ skipn (a + w) l = skipn a l.
Proof.
  unfold slice. replace (a + w - a) with w by lia.
  rewrite skipn_add. apply firstn_skipn.
Qed.

End JsFacts.

(** ** The batcher *)

Module BatcherFacts.
Import Js JsFacts Batcher.

(** *** Outer chunks *)

Lemma chunks_prefix {A : Type} (l : list A) size m :
  concat (map (fun index => slice l (index * size) ((index + 1) * size)) (seq 0 m))
  = firstn (m * size) l.
Proof.
  induction m as [|m IH]; [reflexivity|].
  rewrite seq_S, map_app, concat_app, IH. cbn [map concat Nat.add].
  rewrite app_nil_r.
  rewrite <- (firstn_skipn (m * size) (firstn (S m * size) l)).
  rewrite firstn_firstn. replace (Nat.min (m * size) (S m * size)) with (m * size) by lia.
  f_equal. unfold slice. rewrite skipn_firstn_comm. f_equal; lia.
Qed.

Lemma ceil_covers n size : 0 < size -> n <= (n + size - 1) / size * size.
Proof.
  intros Hs.
  pose proof (Nat.div_mod_eq (n + size - 1) size) as E.
  pose proof (Nat.mod_upper_bound (n + size - 1) size ltac:(lia)) as U.
  nia.
Qed.

Lemma chunks_concat {A : Type} (l : list A) size :
  0 < size -> concat (chunks l size) = l.
Proof.
  intros Hs. unfold chunks. rewrite chunks_prefix.
  apply firstn_all2. now apply ceil_covers.
Qed.

Lemma chunks_length_le {A : Type} (l : list A) size :
  Forall (fun c => length c <= size) (chunks l size).
Proof.
  unfold chunks. apply Forall_forall. intros c Hc.
  apply in_map_iff in Hc. destruct Hc as (k & <- & _).
  rewrite slice_length. lia.
Qed.

Lemma chunks_seq s n size :
  Forall (fun c => exists a, c = seq a (length c)) (chunks (seq s n) size).
Proof.
  unfold chunks. apply Forall_forall. intros c Hc.
  apply in_map_iff in Hc. destruct Hc as (k & <- & _).
  rewrite slice_seq, length_seq. eauto.
Qed.

(** *** Inner batches *)

Lemma forOffsets_concat {A : Type} (l : list A) fuel offset :
  length l - offset <= fuel ->
  concat (forOffsets fuel offset l) = skipn offset l.
Proof.
  revert offset. induction fuel as [|fuel IH]; intros offset Hf.
  - cbn [forOffsets concat]. symmetry. apply skipn_all2. lia.
  - cbn [forOffsets]. destruct (Nat.ltb_spec offset (length l)) as [Hlt|Hge].
    + cbn [concat]. rewrite IH by lia. apply slice_glue.
    + cbn [concat]. symmetry. apply skipn_all2. lia.
Qed.

(** More fuel than [length - offset] changes nothing: the loop has ended. *)
Lemma forOffsets_fuel {A : Type} (l : list A) fuel offset :
  length l - offset <= fuel ->
  forOffsets (S fuel) offset l = forOffsets fuel offset l.
Proof.
  revert offset. induction fuel as [|fuel IH]; intros offset Hf.
  - cbn [forOffsets]. destruct (Nat.ltb_spec offset (length l)); [lia|reflexivity].
  - remember (S fuel) as f eqn:Ef. cbn [forOffsets].
    destruct (Nat.ltb_spec offset (length l)) as [Hlt|Hge].
    + subst f. rewrite IH by lia. cbn [forOffsets].
      destruct (Nat.ltb_spec offset (length l)); [reflexivity|lia].
    + subst f. cbn [forOffsets].
      destruct (Nat.ltb_spec offset (length l)); [lia|reflexivity].
Qed.

Lemma innerBatches_concat {A : Type} (l : list A) : concat (innerBatches l) = l.
Proof.
  unfold innerBatches. rewrite forOffsets_concat by lia. reflexivity.
Qed.

Lemma forOffsets_Forall {A : Type} (P : list A -> Prop) (l : list A) :
  (forall offset, offset < length l -> P (slice l offset (offset + 10))) ->
  forall fuel offset, Forall P (forOffsets fuel offset l).
Proof.
  intros HP. induction fuel as [|fuel IH]; intros offset; cbn [forOffsets].
  - constructor.
  - destruct (Nat.ltb_spec offset (length l)); constructor; auto.
Qed.

Lemma innerBatches_length {A : Type} (l : list A) :
  Forall (fun b => 0 < length b <= 10) (innerBatches l).
Proof.
  apply forOffsets_Forall. intros offset Ho. rewrite slice_length. lia.
Qed.

Lemma innerBatches_seq s n :
  Forall (fun b => exists a, b = seq a (length b)) (innerBatches (seq s n)).
Proof.
  apply forOffsets_Forall. intros offset _.
  rewrite slice_seq, length_seq. eauto.
Qed.

(** *** The whole partition *)

Lemma partition_concat totalCount :
  concat (concat (partition totalCount)) = seq 0 totalCount.
Proof.
  unfold partition, range.
  rewrite <- (chunks_concat (seq 0 totalCount) (size := 1000)) at 2 by lia.
  induction (chunks (seq 0 totalCount) 1000) as [|c cs IH]; [reflexivity|].
  cbn [map concat]. now rewrite concat_app, innerBatches_concat, IH.
Qed.

Lemma partition_batches totalCount :
  Forall (Forall (fun b => 0 < length b <= 10 /\ exists a, b = seq a (length b)))
         (partition totalCount).
Proof.
  unfold partition, range. apply Forall_map.
  eapply Forall_impl; [|apply (chunks_seq 0 totalCount 1000)].
  intros c (a & Hc). rewrite Hc.
  pose proof (innerBatches_length (seq a (length c))) as H1.
  pose proof (innerBatches_seq a (length c)) as H2.
  rewrite Forall_forall in *. intros b Hb. split; auto.
Qed.

Lemma partition_chunks totalCount :
  Forall (fun chunk => length (concat chunk) <= 1000) (partition totalCount).
Proof.
  unfold partition. apply Forall_map.
  eapply Forall_impl; [|apply chunks_length_le].
  intros c Hc. now rewrite innerBatches_concat.
Qed.

(** C1: for every totalCount, cutting [0, totalCount) into slices of 1000 and
    each slice into batches of 10 gives inner batches that are runs of
    consecutive indices of length at most 10 (and not empty), that put one
    after the other are exactly 0, 1, ..., totalCount-1 in order (nothing
    missing, nothing twice); every outer chunk holds at most 1000 indices;
    and 25 indices give one chunk of three batches of 10, 10 and 5. *)
Theorem partition_correct :
  (forall totalCount,
      concat (concat (partition totalCount)) = seq 0 totalCount
      /\ Forall (Forall (fun batch =>
                   0 < length batch <= 10
                   /\ exists a, batch = seq a (length batch)))
                (partition totalCount)
      /\ Forall (fun chunk => length (concat chunk) <= 1000)
                (partition totalCount))
  /\ map (map (@length nat)) (partition 25) = [[10; 10; 5]]
  /\ partition 0 = [].
Proof.
  split; [|split; reflexivity].
  intros totalCount. split; [|split].
  - apply partition_concat.
  - apply partition_batches.
  - apply partition_chunks.
Qed.

End BatcherFacts.

(** ** The cache object *)

Module CacheFacts.
Import Cache.

Lemma keysOf_alter f k o : keysOf (alter f k o) = keysOf o.
Proof.
  induction o as [|[k' it] o IH]; [reflexivity|].
  cbn [alter]. destruct (String.eqb k' k); [reflexivity|].
  unfold keysOf in *. cbn [map fst]. now rewrite IH.
Qed.

Lemma get_alter_same f k o : get (alter f k o) k = option_map f (get o k).
Proof.
  induction o as [|[k' it] o IH]; [reflexivity|].
  cbn [alter get]. destruct (String.eqb k' k) eqn:E; cbn [get]; now rewrite E.
Qed.

Lemma get_alter_other f k k' o : k <> k' -> get (alter f k o) k' = get o k'.
Proof.
  intros Hne. induction o as [|[k0 it] o IH]; [reflexivity|].
  cbn [alter get]. destruct (String.eqb k0 k) eqn:E; cbn [get].
  - apply String.eqb_eq in E. subst k0.
    destruct (String.eqb k k') eqn:E'; [|reflexivity].
    apply String.eqb_eq in E'. contradiction.
  - now rewrite IH.
Qed.

Lemma get_In o k it : get o k = Some it -> In (k, it) o.
Proof.
  induction o as [|[k' it'] o IH]; [discriminate|].
  cbn [get]. destruct (String.eqb k' k) eqn:E.
  - apply String.eqb_eq in E. intros [= ->]. subst. now left.
  - intros H. right. auto.
Qed.

Lemma get_keysOf o k : In k (keysOf o) -> exists it, get o k = Some it.
Proof.
  induction o as [|[k' it'] o IH]; [contradiction|].
  cbn [keysOf map fst get In]. intros [->|Hin].
  - rewrite String.eqb_refl. eauto.
  - destruct (String.eqb k' k); eauto.
Qed.

End CacheFacts.

(** ** One step of the loop *)

Module StepFacts.
Import Js Batcher Cache Sync JsFacts BatcherFacts CacheFacts.

Lemma filter_all {A : Type} (f : A -> bool) (l : list A) :
  length (filter f l) = length l -> forall x, In x l -> f x = true.
Proof.
  induction l as [|y l IH]; [contradiction|].
  cbn [filter]. destruct (f y) eqn:E; cbn [length].
  - intros [= H] x [->|Hx]; auto.
  - intros H. pose proof (filter_length_le f l). lia.
Qed.

Lemma filter_keeps_all {A : Type} (f : A -> bool) (l : list A) :
  (forall x, In x l -> f x = true) -> length (filter f l) = length l.
Proof.
  induction l as [|y l IH]; [reflexivity|].
  intros H. cbn [filter]. rewrite (H y (or_introl eq_refl)). cbn [length].
  f_equal. apply IH. intros x Hx. apply H. now right.
Qed.

Lemma filter_some {A : Type} (f : A -> bool) (l : list A) :
  length (filter f l) <> length l -> exists x, In x l /\ f x = false.
Proof.
  induction l as [|y l IH]; [now intros []|].
  cbn [filter]. destruct (f y) eqn:E; cbn [length].
  - intros H. destruct IH as (x & Hx & Hf); [lia|]. exists x. split; [now right|assumption].
  - intros _. exists y. split; [now left|assumption].
Qed.

Lemma nth_error_setNth {A : Type} (l : list A) n x m :
  nth_error (setNth n x l) m
  = if Nat.eqb n m then option_map (fun _ => x) (nth_error l m) else nth_error l m.
Proof.
  revert n m. induction l as [|y l IH]; intros n m.
  - destruct n, m; cbn [setNth nth_error Nat.eqb option_map];
      try reflexivity. now destruct (Nat.eqb n m).
  - destruct n as [|n], m as [|m]; cbn [setNth nth_error Nat.eqb option_map]; try reflexivity.
    apply IH.
Qed.

(** Replacing one task replaces its batches among the pending ones. *)
Lemma pendingBatches_setNth ts j t :
  nth_error ts j = Some t ->
  exists pre post,
    pendingBatches ts = pre ++ taskBatches t ++ post
    /\ forall t', pendingBatches (setNth j t' ts) = pre ++ taskBatches t' ++ post.
Proof.
  unfold pendingBatches. revert j. induction ts as [|t0 ts IH]; intros j Hj.
  - destruct j; discriminate.
  - destruct j as [|j]; cbn [nth_error] in Hj.
    + injection Hj as ->. exists [], (concat (map taskBatches ts)).
      split; [reflexivity|]. intros t'. reflexivity.
    + destruct (IH j Hj) as (pre & post & E & E').
      exists (taskBatches t0 ++ pre), post. cbn [map concat setNth].
      split.
      * rewrite E. now rewrite <- app_assoc.
      * intros t'. rewrite E'. now rewrite <- app_assoc.
Qed.

Section Loop.

Variable v : version.
Variable keys : list string.
Variable loaded : CacheContent.

(** Every index of the batch is on chain. *)
Definition allOn (o : Items) (batch : list nat) : Prop :=
  forall i, In i batch -> isOnChain keys o i = true.

(** What [advance] does: it passes over batches that are wholly on chain and
    stops at the first that is not, which it submits. *)
Lemma advance_spec o iterations t issued :
  advance keys o iterations = (t, issued) ->
  exists skipped,
    iterations = skipped ++ taskBatches t
    /\ Forall (allOn o) skipped
    /\ ((t = Finished /\ issued = [])
        \/ exists batch rest,
             t = Awaiting batch rest /\ issued = [callFor keys o batch]
             /\ exists i, In i batch /\ isOnChain keys o i = false).
Proof.
  revert t issued. induction iterations as [|batch rest IH]; intros t issued.
  - cbn [advance]. intros [= <- <-]. exists []. cbn. auto.
  - cbn [advance].
    destruct (Nat.eqb_spec (length (filter (isOnChain keys o) batch)) (length batch))
      as [E|E]; cbn [negb].
    + intros H. destruct (IH _ _ H) as (skipped & Hs & Hall & Hc).
      exists (batch :: skipped). split; [cbn; now f_equal|].
      split; [|exact Hc]. constructor; [|exact Hall].
      intros i Hi. now apply (filter_all _ _ E).
    + intros [= <- <-]. exists []. split; [reflexivity|]. split; [constructor|].
      right. exists batch, rest. repeat split. now apply filter_some.
Qed.

(** The two ways a decision can go. *)
Inductive resumeView (d : decision) (st st' : state) : Prop :=
| Stutter : st' = st -> resumeView d st st'
| Resumed batch rest t issued :
    nth_error (tasks st) (who d) = Some (Awaiting batch rest) ->
    cacheItems st' = (if rpcOk d then markAll v keys batch (cacheItems st)
                      else cacheItems st) ->
    advance keys (cacheItems st') rest = (t, issued) ->
    disk st' = (if rpcOk d
                then saveCache (saveOk d) (disk st) (withItems loaded (cacheItems st'))
                else disk st) ->
    addConfigSuccessful st' = (addConfigSuccessful st && isCommitted (settleOf d)) ->
    tasks st' = setNth (who d) t (tasks st) ->
    calls st' = calls st ++ issued ->
    settled st' = settled st ++ [(batch, settleOf d)] ->
    resumeView d st st'.

Lemma resume_view d st : resumeView d st (resume v keys loaded d st).
Proof.
  unfold resume.
  destruct (nth_error (tasks st) (who d)) as [[batch rest|]|] eqn:E;
    try (now apply Stutter).
  destruct (advance keys _ rest) as [t issued] eqn:Ea.
  eapply Resumed with (batch := batch) (rest := rest) (t := t) (issued := issued);
    cbn; try reflexivity; try assumption.
  unfold settleOf. destruct (rpcOk d), (saveOk d), (addConfigSuccessful st); reflexivity.
Qed.

Lemma exec_app ds ds' st :
  exec v keys loaded (ds ++ ds') st = exec v keys loaded ds' (exec v keys loaded ds st).
Proof. unfold exec. apply fold_left_app. Qed.

(** A property that every step keeps holds after any schedule. *)
Lemma exec_invariant (P : state -> Prop) :
  (forall d st, P st -> P (resume v keys loaded d st)) ->
  forall ds st, P st -> P (exec v keys loaded ds st).
Proof.
  intros Hstep ds. induction ds as [|d ds IH]; intros st Hst; [exact Hst|].
  cbn [exec fold_left]. apply IH. now apply Hstep.
Qed.

End Loop.

End StepFacts.

(** ** What the loop does to the items *)

Module ItemFacts.
Import Js Batcher Cache Sync JsFacts BatcherFacts CacheFacts StepFacts.

Lemma evolves_refl v it : evolves v it it.
Proof. unfold evolves. destruct v; auto. Qed.

Lemma evolves_trans v a b c : evolves v a b -> evolves v b c -> evolves v a c.
Proof.
  unfold evolves. intros (N1 & L1 & O1 & V1) (N2 & L2 & O2 & V2).
  repeat split; try congruence; auto.
  destruct v; [auto|congruence].
Qed.

Lemma evolves_commit v it : evolves v it (commitMark v it).
Proof. unfold evolves. destruct v; cbn; auto. Qed.

Lemma optRel_refl {A : Type} (R : A -> A -> Prop) :
  (forall x, R x x) -> forall a, optRel R a a.
Proof. intros HR [x|]; cbn; auto. Qed.

Lemma optRel_trans {A : Type} (R : A -> A -> Prop) :
  (forall x y z, R x y -> R y z -> R x z) ->
  forall a b c, optRel R a b -> optRel R b c -> optRel R a c.
Proof.
  intros HR [x|] [y|] [z|]; cbn; try tauto. apply HR.
Qed.

Section Loop.

Variable v : version.
Variable keys : list string.
Variable loaded : CacheContent.

Local Abbreviation markOne := (markOne v keys).
Local Abbreviation markAll := (markAll v keys).
Local Abbreviation exec := (exec v keys loaded).
Local Abbreviation itemAt := (itemAt keys).
Local Abbreviation isOnChain := (isOnChain keys).

Lemma keysOf_markOne o i : keysOf (markOne o i) = keysOf o.
Proof.
  unfold Sync.markOne. destruct (nth_error keys i); [apply keysOf_alter|reflexivity].
Qed.

Lemma keysOf_markAll batch o : keysOf (markAll batch o) = keysOf o.
Proof.
  unfold Sync.markAll. revert o.
  induction batch as [|i batch IH]; intros o; [reflexivity|].
  cbn [fold_left]. rewrite IH. apply keysOf_markOne.
Qed.

Lemma get_markOne o i k : optRel (evolves v) (get o k) (get (markOne o i) k).
Proof.
  unfold Sync.markOne. destruct (nth_error keys i) as [k0|].
  - destruct (string_dec k0 k) as [->|Hne].
    + rewrite get_alter_same. destruct (get o k); cbn; [apply evolves_commit|exact I].
    + rewrite get_alter_other by assumption.
      apply optRel_refl, evolves_refl.
  - apply optRel_refl, evolves_refl.
Qed.

Lemma get_markAll batch o k : optRel (evolves v) (get o k) (get (markAll batch o) k).
Proof.
  unfold Sync.markAll. revert o.
  induction batch as [|i batch IH]; intros o.
  - apply optRel_refl, evolves_refl.
  - cbn [fold_left].
    eapply optRel_trans; [apply evolves_trans|apply get_markOne|apply IH].
Qed.

Lemma get_resume d st k :
  optRel (evolves v) (get (cacheItems st) k)
         (get (cacheItems (resume v keys loaded d st)) k).
Proof.
  destruct (resume_view v keys loaded d st) as [->|batch rest t issued _ Hc _ _ _ _ _ _].
  - apply optRel_refl, evolves_refl.
  - rewrite Hc. destruct (rpcOk d); [apply get_markAll|].
    apply optRel_refl, evolves_refl.
Qed.

(** Along any schedule every item only [evolves]. *)
Lemma get_exec ds st k :
  optRel (evolves v) (get (cacheItems st) k) (get (cacheItems (exec ds st)) k).
Proof.
  revert st. induction ds as [|d ds IH]; intros st.
  - apply optRel_refl, evolves_refl.
  - cbn [Sync.exec fold_left].
    eapply optRel_trans; [apply evolves_trans|apply get_resume|apply IH].
Qed.

Lemma keysOf_exec ds st : keysOf (cacheItems (exec ds st)) = keysOf (cacheItems st).
Proof.
  apply (exec_invariant v keys loaded
           (fun s => keysOf (cacheItems s) = keysOf (cacheItems st))); [|reflexivity].
  intros d s Hs.
  destruct (resume_view v keys loaded d s) as [->|batch rest t issued _ Hc _ _ _ _ _ _];
    [assumption|].
  rewrite Hc. destruct (rpcOk d); [now rewrite keysOf_markAll|assumption].
Qed.

Lemma itemAt_evolves o o' i :
  (forall k, optRel (evolves v) (get o k) (get o' k)) ->
  optRel (evolves v) (itemAt o i) (itemAt o' i).
Proof.
  intros H. unfold Sync.itemAt. destruct (nth_error keys i); [apply H|exact I].
Qed.

Lemma isOnChain_evolves o o' i :
  (forall k, optRel (evolves v) (get o k) (get o' k)) ->
  isOnChain o i = true -> isOnChain o' i = true.
Proof.
  intros H. pose proof (itemAt_evolves o o' i H) as E.
  unfold Sync.isOnChain. destruct (itemAt o i), (itemAt o' i); cbn in E; try easy.
  apply E.
Qed.

(** An index below [length keys] has its item when the keys are those of the
    object. *)
Lemma itemAt_range o i :
  keysOf o = keys -> i < length keys -> exists it, itemAt o i = Some it.
Proof.
  intros Hk Hi. unfold Sync.itemAt.
  destruct (nth_error keys i) as [k|] eqn:E.
  - apply get_keysOf. rewrite Hk. eapply nth_error_In; eassumption.
  - apply nth_error_None in E. lia.
Qed.

(** After the [forEach] every item of the batch is on chain and, in the v2
    file, has [verifyRun] false. *)
Lemma markAll_marks batch o i it :
  In i batch -> itemAt o i = Some it ->
  exists it', itemAt (markAll batch o) i = Some it'
              /\ truthy (onChain it') = true
              /\ (v = CliV2 -> verifyRun it' = Some false)
              /\ name it' = name it /\ link it' = link it.
Proof.
  unfold Sync.markAll. revert o it.
  induction batch as [|j batch IH]; intros o it Hin Hit; [contradiction|].
  cbn [fold_left]. destruct (Nat.eq_dec j i) as [->|Hne].
  - clear IH Hin.
    assert (Hm : itemAt (markOne o i) i = Some (commitMark v it)).
    { unfold Sync.itemAt, Sync.markOne in *.
      destruct (nth_error keys i) as [k|]; [|discriminate].
      rewrite get_alter_same, Hit. reflexivity. }
    pose proof (itemAt_evolves (markOne o i) (fold_left markOne batch (markOne o i)) i
                  (get_markAll batch (markOne o i))) as E.
    rewrite Hm in E.
    destruct (itemAt (fold_left markOne batch (markOne o i)) i) as [it'|];
      [|contradiction].
    cbn in E. destruct E as (N & L & O & V).
    exists it'. split; [reflexivity|].
    split; [apply O; now destruct v|].
    split; [intros ->; apply V; reflexivity|].
    destruct v; cbn in N, L; auto.
  - destruct Hin as [->|Hin]; [contradiction|].
    pose proof (itemAt_evolves o (markOne o j) i (get_markOne o j)) as E.
    rewrite Hit in E.
    destruct (itemAt (markOne o j) i) as [it1|] eqn:E1; [|contradiction].
    cbn in E. destruct E as (N & L & _ & _).
    destruct (IH _ _ Hin E1) as (it' & H1 & H2 & H3 & H4 & H5).
    exists it'. repeat split; auto; congruence.
Qed.

End Loop.

(** C8: an item whose [onChain] flag is true keeps it true over every step and
    every run of the loop, in both files: after any schedule, from any state,
    the item is still there with [onChain] true; and the only value the loop
    ever assigns to [onChain] is [true]. *)
Theorem onChain_never_reset v keys loaded schedule st k it :
  get (cacheItems st) k = Some it ->
  truthy (onChain it) = true ->
  (exists it', get (cacheItems (exec v keys loaded schedule st)) k = Some it'
               /\ truthy (onChain it') = true)
  /\ (forall it0, onChain (commitMark v it0) = Some true).
Proof.
  intros Hget Hon. split.
  - pose proof (get_exec v keys loaded schedule st k) as E.
    rewrite Hget in E.
    destruct (get (cacheItems (exec v keys loaded schedule st)) k) as [it'|];
      [|contradiction].
    exists it'. split; [reflexivity|]. now apply E.
  - intros it0. now destruct v.
Qed.

Lemma onChain_never_reset_witness :
  (exists it',
      get (cacheItems
             (exec CliV2 (keysOf Sample.resumed)
                (Sample.cacheOf Sample.v2Program Sample.resumed) [Sample.ok 0]
                (initial (keysOf Sample.resumed)
                   (Sample.cacheOf Sample.v2Program Sample.resumed) Sample.resumed)))
          "2" = Some it'
      /\ truthy (onChain it') = true)
  /\ (forall it0, onChain (commitMark CliV2 it0) = Some true).
Proof.
  apply (@onChain_never_reset CliV2 (keysOf Sample.resumed)
           (Sample.cacheOf Sample.v2Program Sample.resumed) [Sample.ok 0]
           (initial (keysOf Sample.resumed)
              (Sample.cacheOf Sample.v2Program Sample.resumed) Sample.resumed)
           "2"%string (snd (Sample.item (Some true) None 2)));
    reflexivity.
Defined.

End ItemFacts.

(** ** Runs of the loop *)

Module RunFacts.
Import Js Batcher Cache Sync JsFacts BatcherFacts CacheFacts StepFacts ItemFacts.

Lemma occ_app i l l' : occ i (l ++ l') = occ i l + occ i l'.
Proof. apply count_occ_app. Qed.

Lemma occ_In i l : In i l <-> 0 < occ i l.
Proof. unfold occ. rewrite (count_occ_In Nat.eq_dec). lia. Qed.

Lemma occ_seq i s n : occ i (seq s n) <= 1.
Proof. apply NoDup_count_occ. apply seq_NoDup. Qed.

Lemma occ_concat_In i (b : list nat) bs :
  In b bs -> occ i b <= occ i (concat bs).
Proof.
  induction bs as [|b' bs IH]; [contradiction|].
  cbn [concat]. rewrite occ_app. intros [->|Hin]; [lia|].
  specialize (IH Hin). lia.
Qed.

Lemma In_setNth {A : Type} (l : list A) n x y :
  In y (setNth n x l) -> y = x \/ In y l.
Proof.
  revert n. induction l as [|z l IH]; intros n.
  - destruct n; contradiction.
  - destruct n as [|n]; cbn [setNth In].
    + intros [<-|H]; auto.
    + intros [<-|H]; auto. destruct (IH _ H); auto.
Qed.

Section Loop.

Variable v : version.
Variable keys : list string.
Variable loaded : CacheContent.

Local Abbreviation exec := (exec v keys loaded).
Local Abbreviation resume := (resume v keys loaded).
Local Abbreviation itemAt := (itemAt keys).
Local Abbreviation isOnChain := (isOnChain keys).
Local Abbreviation allOn := (allOn keys).
Local Abbreviation callFor := (callFor keys).

(** A decision either changes nothing, or settles the awaited batch of one
    task and moves that task past the batches that need no call. *)
Inductive stepView (d : decision) (st st' : state) : Prop :=
| Idle : st' = st -> stepView d st st'
| Settles batch skipped t issued pre post :
    cacheItems st' = (if rpcOk d then markAll v keys batch (cacheItems st)
                      else cacheItems st) ->
    In (Awaiting batch (skipped ++ taskBatches t)) (tasks st) ->
    pendingBatches (tasks st) = pre ++ (batch :: skipped ++ taskBatches t) ++ post ->
    pendingBatches (tasks st') = pre ++ taskBatches t ++ post ->
    (forall x, In x (tasks st') -> x = t \/ In x (tasks st)) ->
    Forall (allOn (cacheItems st')) skipped ->
    ((t = Finished /\ issued = [])
     \/ exists b r, t = Awaiting b r /\ issued = [callFor (cacheItems st') b]
                    /\ exists i, In i b /\ isOnChain (cacheItems st') i = false) ->
    disk st' = (if rpcOk d
                then saveCache (saveOk d) (disk st) (withItems loaded (cacheItems st'))
                else disk st) ->
    addConfigSuccessful st' = (addConfigSuccessful st && isCommitted (settleOf d)) ->
    calls st' = calls st ++ issued ->
    settled st' = settled st ++ [(batch, settleOf d)] ->
    stepView d st st'.

Lemma step_view d st : stepView d st (resume d st).
Proof.
  destruct (resume_view v keys loaded d st)
    as [->|batch rest t issued Hn Hc Ha Hd Hf Ht Hcalls Hs]; [now apply Idle|].
  destruct (advance_spec _ _ _ Ha) as (skipped & -> & Hall & Hcase).
  destruct (pendingBatches_setNth _ _ Hn) as (pre & post & E & E').
  eapply Settles with (batch := batch) (skipped := skipped) (t := t)
                       (issued := issued) (pre := pre) (post := post); auto.
  - eapply nth_error_In; eassumption.
  - rewrite Ht. apply E'.
  - intros x. rewrite Ht. apply In_setNth.
Qed.

(** What starting the tasks does. *)
Lemma startAll_spec o slices ts issued :
  startAll keys o slices = (ts, issued) ->
  (forall b, In b (concat slices) -> In b (pendingBatches ts) \/ allOn o b)
  /\ (forall b, In b (pendingBatches ts) -> In b (concat slices))
  /\ (forall i, occ i (concat (pendingBatches ts)) <= occ i (concat (concat slices)))
  /\ (forall b r, In (Awaiting b r) ts -> In (callFor o b) issued)
  /\ (forall c, In c issued ->
        exists b, c = callFor o b /\ In b (concat slices)
                  /\ exists i, In i b /\ isOnChain o i = false).
Proof.
  revert ts issued. induction slices as [|iterations more IH]; intros ts issued.
  - cbn [startAll]. intros [= <- <-]. cbn.
    split; [tauto|]. split; [tauto|]. split; [intros; lia|].
    split; [intros b r []|intros c []].
  - cbn [startAll].
    destruct (advance keys o iterations) as [t is1] eqn:Ea.
    destruct (startAll keys o more) as [ts' is2] eqn:Es.
    intros [= <- <-].
    destruct (IH _ _ eq_refl) as (I1 & I2 & I3 & I4 & I5).
    destruct (advance_spec _ _ _ Ea) as (skipped & -> & Hall & Hcase).
    unfold pendingBatches in *. cbn [map concat].
    split; [|split; [|split; [|split]]].
    + intros b Hb. rewrite !in_app_iff in Hb. rewrite in_app_iff.
      destruct Hb as [[Hb|Hb]|Hb]; auto.
      * right. rewrite Forall_forall in Hall. now apply Hall.
      * destruct (I1 _ Hb); auto.
    + intros b Hb. rewrite !in_app_iff in *. destruct Hb; auto.
    + intros i. rewrite !concat_app, !occ_app. specialize (I3 i). lia.
    + intros b r [->|Hin].
      * destruct Hcase as [[? ?]|(b' & r' & [= <- <-] & -> & _)]; [discriminate|].
        now left.
      * apply in_or_app. right. eapply I4; eassumption.
    + intros c Hc. apply in_app_or in Hc. destruct Hc as [Hc|Hc].
      * destruct Hcase as [[_ ->]|(b & r & -> & -> & Hi)]; [contradiction|].
        destruct Hc as [<-|[]]. exists b. split; [reflexivity|]. split; [|exact Hi].
        cbn [taskBatches]. rewrite !in_app_iff. left. right. now left.
      * destruct (I5 _ Hc) as (b & -> & Hb & Hi). exists b.
        split; [reflexivity|]. split; [|exact Hi]. apply in_or_app. now right.
Qed.

Lemma initial_fields o :
  exists ts issued,
    startAll keys o (partition (length keys)) = (ts, issued)
    /\ initial keys loaded o
       = {| cacheItems := o; disk := Some loaded; addConfigSuccessful := true;
            tasks := ts; calls := issued; settled := [] |}.
Proof.
  unfold initial. destruct (startAll keys o (partition (length keys))) as [ts issued].
  eauto.
Qed.

(** Every batch of the partition holds indices below the count. *)
Lemma partition_range n b i :
  In b (concat (partition n)) -> In i b -> i < n.
Proof.
  intros Hb Hi.
  assert (H : In i (concat (concat (partition n)))).
  { apply in_concat. eauto. }
  rewrite partition_concat in H. apply in_seq in H. lia.
Qed.

(** The keys stay, and the batches in play are batches of the partition. *)
Definition wellFormed (o : Items) (st : state) : Prop :=
  keysOf (cacheItems st) = keysOf o
  /\ (forall b, In b (pendingBatches (tasks st)) -> In b (concat (partition (length keys))))
  /\ (forall b how, In (b, how) (settled st) -> In b (concat (partition (length keys)))).

Lemma wellFormed_initial o : wellFormed o (initial keys loaded o).
Proof.
  destruct (initial_fields o) as (ts & issued & Hs & ->).
  destruct (startAll_spec _ _ Hs) as (_ & I2 & _).
  repeat split; cbn; auto. intros b how [].
Qed.

Lemma wellFormed_resume o d st : wellFormed o st -> wellFormed o (resume d st).
Proof.
  intros (K & P & S).
  destruct (step_view d st)
    as [->|batch skipped t issued pre post Hc Hin Hp Hp' Ht Hall Hcase Hd Hf Hcalls Hs];
    [now repeat split|].
  split; [|split].
  - rewrite Hc. destruct (rpcOk d); [now rewrite keysOf_markAll|assumption].
  - intros b Hb. apply P. rewrite Hp. rewrite Hp' in Hb.
    rewrite !in_app_iff in *. cbn [In]. rewrite in_app_iff. tauto.
  - intros b how. rewrite Hs, in_app_iff. intros [H|[[= <- <-]|[]]]; [eauto|].
    apply P. rewrite Hp. apply in_or_app. right. now left.
Qed.

Lemma wellFormed_exec o ds : wellFormed o (exec ds (initial keys loaded o)).
Proof.
  apply exec_invariant; [apply wellFormed_resume|apply wellFormed_initial].
Qed.

End Loop.

End RunFacts.

(** ** The command as a whole *)

Module CommandFacts.
Import Js Batcher Cache Sync JsFacts BatcherFacts CacheFacts StepFacts ItemFacts RunFacts.

(** The cache passes the reads before the loop. *)
Definition ready (v : version) (c : CacheContent) (o : Items) : Prop :=
  exists p, program c = Some p /\ truthyString (handle v p) = true /\ items c = Some o.

(** [addConfigLines] either throws before the loop, having called nothing and
    written nothing, or runs the loop from the loaded cache. *)
Inductive commandView (v : version) (file : option CacheContent)
    (schedule : list decision) (finalSaveOk : bool) (r : Run) : Prop :=
| Refused e : r = aborted e file -> commandView v file schedule finalSaveOk r
| Ran c o :
    file = Some c -> ready v c o ->
    outcome r = (if allFinished (exec v (keysOf o) c schedule (initial (keysOf o) c o))
                 then (if finalSaveOk
                       then Done (addConfigSuccessful
                                    (exec v (keysOf o) c schedule (initial (keysOf o) c o)))
                       else Threw IOError)
                 else InFlight) ->
    remote r = calls (exec v (keysOf o) c schedule (initial (keysOf o) c o)) ->
    ledger r = settled (exec v (keysOf o) c schedule (initial (keysOf o) c o)) ->
    memory r = cacheItems (exec v (keysOf o) c schedule (initial (keysOf o) c o)) ->
    commandView v file schedule finalSaveOk r.

Lemma command_view v file schedule finalSaveOk :
  commandView v file schedule finalSaveOk (addConfigLines v file schedule finalSaveOk).
Proof.
  unfold addConfigLines, loadCache.
  destruct file as [c|]; [|now eapply Refused].
  destruct (program c) as [p|] eqn:Ep; [|now eapply Refused].
  destruct (truthyString (handle v p)) eqn:Eh; cbn [negb]; [|now eapply Refused].
  destruct (items c) as [o|] eqn:Eo; [|now eapply Refused].
  eapply Ran with (c := c) (o := o); try reflexivity.
  exists p. auto.
Qed.

Lemma command_ready v c o schedule finalSaveOk :
  ready v c o ->
  addConfigLines v (Some c) schedule finalSaveOk
  = let st := exec v (keysOf o) c schedule (initial (keysOf o) c o) in
    {| outcome := if allFinished st
                  then (if finalSaveOk then Done (addConfigSuccessful st)
                        else Threw IOError)
                  else InFlight;
       stored := if allFinished st
                 then saveCache finalSaveOk (disk st) (withItems c (cacheItems st))
                 else disk st;
       remote := calls st; ledger := settled st; memory := cacheItems st |}.
Proof.
  intros (p & Ep & Eh & Eo). unfold addConfigLines, loadCache.
  now rewrite Ep, Eh, Eo.
Qed.

End CommandFacts.

(** ** [verifyRun] *)

Module VerifyRunFacts.
Import Js Batcher Cache Sync JsFacts BatcherFacts CacheFacts StepFacts ItemFacts RunFacts.

Section Loop.

Variable v : version.
Variable keys : list string.
Variable loaded : CacheContent.
Variable o : Items.
Hypothesis keys_of : keys = keysOf o.

(** Every item of a batch whose call was fulfilled is on chain and, in the v2
    file, has [verifyRun] false. *)
Definition marked (st : state) : Prop :=
  forall batch how i,
    In (batch, how) (settled st) -> how <> CommitFailed -> In i batch ->
    exists it, itemAt keys (cacheItems st) i = Some it
               /\ truthy (onChain it) = true
               /\ (v = CliV2 -> verifyRun it = Some false).

Lemma marked_resume d st :
  wellFormed keys o st -> marked st -> marked (resume v keys loaded d st).
Proof.
  intros (K & P & S) M.
  pose proof (get_resume v keys loaded d st) as Hev.
  destruct (step_view v keys loaded d st)
    as [->|batch skipped t issued pre post Hc Hin Hp Hp' Ht Hall Hcase Hd Hf Hcalls Hs];
    [exact M|].
  intros b how i Hb Hhow Hi. rewrite Hs in Hb. apply in_app_or in Hb.
  destruct Hb as [Hb|[[= <- <-]|[]]].
  - destruct (M _ _ _ Hb Hhow Hi) as (it & E & On & Vr).
    pose proof (itemAt_evolves v keys _ _ i Hev) as R. rewrite E in R.
    destruct (itemAt keys (cacheItems (resume v keys loaded d st)) i) as [it'|];
      [|contradiction].
    cbn in R. destruct R as (_ & _ & On' & Vr').
    exists it'. split; [reflexivity|]. split; [auto|].
    intros ->. apply Vr'. now apply Vr.
  - assert (Hrpc : rpcOk d = true).
    { unfold settleOf in Hhow. destruct (rpcOk d); [reflexivity|congruence]. }
    rewrite Hc, Hrpc.
    assert (Hr : i < length keys).
    { eapply partition_range; [|exact Hi]. apply P. rewrite Hp.
      apply in_or_app. right. now left. }
    destruct (@itemAt_range keys (cacheItems st) i) as (it & E); [congruence|assumption|].
    destruct (@markAll_marks v keys batch _ i it Hi E) as (it' & E' & On & Vr & _).
    exists it'. auto.
Qed.

Lemma marked_exec ds : marked (exec v keys loaded ds (initial keys loaded o)).
Proof.
  assert (H : wellFormed keys o (exec v keys loaded ds (initial keys loaded o))
              /\ marked (exec v keys loaded ds (initial keys loaded o))).
  { apply (exec_invariant v keys loaded (fun s => wellFormed keys o s /\ marked s)).
    - intros d st [W M]. split; [now apply wellFormed_resume|now apply marked_resume].
    - split; [apply wellFormed_initial|].
      destruct (initial_fields keys loaded o) as (ts & issued & _ & ->).
      intros b how i []. }
  apply H.
Qed.

End Loop.

(** C9 (as amended): in lorelabs-cli-v2.ts every item of a batch whose call
    was fulfilled has [verifyRun] false afterwards, whatever its [onChain] and
    [verifyRun] were before; in the older file no run changes the [verifyRun]
    of any item. *)
Theorem verifyRun_after_commit keys loaded o schedule batch how i :
  keys = keysOf o ->
  In (batch, how) (settled (exec CliV2 keys loaded schedule (initial keys loaded o))) ->
  how <> CommitFailed ->
  In i batch ->
  (exists it,
      itemAt keys (cacheItems (exec CliV2 keys loaded schedule (initial keys loaded o))) i
      = Some it
      /\ verifyRun it = Some false)
  /\ (forall st k,
        option_map verifyRun (get (cacheItems (exec CliV1 keys loaded schedule st)) k)
        = option_map verifyRun (get (cacheItems st) k)).
Proof.
  intros Hk Hb Hhow Hi. split.
  - destruct (@marked_exec CliV2 keys loaded o Hk schedule batch how i Hb Hhow Hi)
      as (it & E & _ & Vr).
    exists it. auto.
  - intros st k. pose proof (get_exec CliV1 keys loaded schedule st k) as R.
    destruct (get (cacheItems st) k), (get (cacheItems (exec CliV1 keys loaded schedule st)) k);
      cbn in R |- *; try contradiction; [|reflexivity].
    destruct R as (_ & _ & _ & ->). reflexivity.
Qed.

Lemma verifyRun_after_commit_witness :
  (exists it,
      itemAt (keysOf Sample.verified)
        (cacheItems (exec CliV2 (keysOf Sample.verified)
                       (Sample.cacheOf Sample.v2Program Sample.verified) [Sample.ok 0]
                       (initial (keysOf Sample.verified)
                          (Sample.cacheOf Sample.v2Program Sample.verified)
                          Sample.verified))) 0
      = Some it
      /\ verifyRun it = Some false)
  /\ (forall st k,
        option_map verifyRun
          (get (cacheItems (exec CliV1 (keysOf Sample.verified)
                              (Sample.cacheOf Sample.v2Program Sample.verified)
                              [Sample.ok 0] st)) k)
        = option_map verifyRun (get (cacheItems st) k)).
Proof.
  apply (@verifyRun_after_commit (keysOf Sample.verified)
           (Sample.cacheOf Sample.v2Program Sample.verified) Sample.verified
           [Sample.ok 0] [0] Committed 0).
  - reflexivity.
  - left. reflexivity.
  - discriminate.
  - left. reflexivity.
Defined.

(** C9 (as stated) fails: an item that was never on chain and carries
    [verifyRun] true is submitted for the first time by the v2 file; the call
    is fulfilled, and [verifyRun] is false afterwards. *)
Lemma verifyRun_cleared_on_first_commit :
  option_map onChain (get Sample.verified "0") = Some None
  /\ option_map verifyRun (get Sample.verified "0") = Some (Some true)
  /\ ledger (addConfigLines CliV2
               (Some (Sample.cacheOf Sample.v2Program Sample.verified))
               [Sample.ok 0] true)
     = [([0], Committed)]
  /\ option_map verifyRun
       (get (memory (addConfigLines CliV2
                       (Some (Sample.cacheOf Sample.v2Program Sample.verified))
                       [Sample.ok 0] true)) "0")
     = Some (Some false).
Proof. repeat split. Qed.

End VerifyRunFacts.

(** ** The final report *)

Module ReportFacts.
Import Js Batcher Cache Sync JsFacts BatcherFacts CacheFacts StepFacts ItemFacts RunFacts.
Import CommandFacts.

Lemma failedBatches_app l l' :
  failedBatches (l ++ l') = failedBatches l + failedBatches l'.
Proof. unfold failedBatches. now rewrite filter_app, length_app. Qed.

Lemma failedBatches_one (b : list nat) how :
  failedBatches [(b, how)] = if isCommitted how then 0 else 1.
Proof. unfold failedBatches. cbn [filter snd]. now destruct (isCommitted how). Qed.

Lemma failedBatches_In (l : list (list nat * settle)) b how :
  In (b, how) l -> isCommitted how = false -> 0 < failedBatches l.
Proof.
  unfold failedBatches. induction l as [|[b0 how0] l IH]; [contradiction|].
  cbn [filter snd In]. intros [[= -> ->]|H] Hc.
  - rewrite Hc. cbn. lia.
  - specialize (IH H Hc). destruct (negb (isCommitted how0)); cbn [length]; lia.
Qed.

Lemma tally_total l : succeededBatches l + failedBatches l = length l.
Proof.
  unfold succeededBatches, failedBatches.
  induction l as [|[b how] l IH]; [reflexivity|].
  cbn [filter snd]. destruct (isCommitted how); cbn [negb length]; lia.
Qed.

Section Loop.

Variable v : version.
Variable keys : list string.
Variable loaded : CacheContent.

(** The flag is true exactly when no settled batch has failed. *)
Definition tallied (st : state) : Prop :=
  addConfigSuccessful st = (failedBatches (settled st) =? 0).

Lemma tallied_resume d st : tallied st -> tallied (resume v keys loaded d st).
Proof.
  unfold tallied. intros T.
  destruct (step_view v keys loaded d st)
    as [->|batch skipped t issued pre post _ _ _ _ _ _ _ _ Hf _ Hs]; [exact T|].
  rewrite Hf, Hs, failedBatches_app, T, failedBatches_one.
  destruct (isCommitted (settleOf d)).
  - rewrite Nat.add_0_r. apply andb_true_r.
  - rewrite andb_false_r. symmetry. apply Nat.eqb_neq. lia.
Qed.

Lemma tallied_exec o ds : tallied (exec v keys loaded ds (initial keys loaded o)).
Proof.
  apply exec_invariant; [apply tallied_resume|].
  destruct (initial_fields keys loaded o) as (ts & issued & _ & ->). reflexivity.
Qed.

End Loop.

(** The flag a finished run prints is true exactly when no batch failed. *)
Lemma done_flag v file schedule successful :
  outcome (addConfigLines v file schedule true) = Done successful ->
  successful = (failedBatches (ledger (addConfigLines v file schedule true)) =? 0).
Proof.
  intros H.
  destruct (command_view v file schedule true) as [e E|c o _ _ Ho _ Hl _].
  - rewrite E in H. discriminate.
  - rewrite Ho in H. rewrite Hl.
    destruct (allFinished _); [|discriminate].
    injection H as <-. apply tallied_exec.
Qed.

(** C4 (as amended): what a run reports is one boolean, [Done. Successful =
    ...]; it is true exactly when no submitted batch failed.  The numbers of
    batches that succeeded and failed (which add up to the batches settled)
    are not part of it. *)
Theorem report_is_one_boolean v file schedule successful :
  outcome (addConfigLines v file schedule true) = Done successful ->
  successful = (failedBatches (ledger (addConfigLines v file schedule true)) =? 0)
  /\ succeededBatches (ledger (addConfigLines v file schedule true))
     + failedBatches (ledger (addConfigLines v file schedule true))
     = length (ledger (addConfigLines v file schedule true)).
Proof.
  intros H. split; [now apply done_flag|apply tally_total].
Qed.

Lemma report_is_one_boolean_witness :
  false = (failedBatches
             (ledger (addConfigLines CliV2
                        (Some (Sample.cacheOf Sample.v2Program (Sample.fresh 50)))
                        Sample.oneRejected true)) =? 0)
  /\ succeededBatches
       (ledger (addConfigLines CliV2
                  (Some (Sample.cacheOf Sample.v2Program (Sample.fresh 50)))
                  Sample.oneRejected true))
     + failedBatches
         (ledger (addConfigLines CliV2
                    (Some (Sample.cacheOf Sample.v2Program (Sample.fresh 50)))
                    Sample.oneRejected true))
     = length
         (ledger (addConfigLines CliV2
                    (Some (Sample.cacheOf Sample.v2Program (Sample.fresh 50)))
                    Sample.oneRejected true)).
Proof.
  apply (@report_is_one_boolean CliV2
           (Some (Sample.cacheOf Sample.v2Program (Sample.fresh 50)))
           Sample.oneRejected false).
  vm_compute. reflexivity.
Defined.

(** C4 (as stated) fails: of five batches one fails in one run and two fail in
    another, and both runs report the same thing, [Done. Successful = false];
    the counts 4 and 1, 3 and 2 are not in the report. *)
Lemma report_hides_counts :
  outcome (addConfigLines CliV2
             (Some (Sample.cacheOf Sample.v2Program (Sample.fresh 50)))
             Sample.oneRejected true) = Done false
  /\ outcome (addConfigLines CliV2
                (Some (Sample.cacheOf Sample.v2Program (Sample.fresh 50)))
                Sample.twoRejected true) = Done false
  /\ succeededBatches
       (ledger (addConfigLines CliV2
                  (Some (Sample.cacheOf Sample.v2Program (Sample.fresh 50)))
                  Sample.oneRejected true)) = 4
  /\ failedBatches
       (ledger (addConfigLines CliV2
                  (Some (Sample.cacheOf Sample.v2Program (Sample.fresh 50)))
                  Sample.oneRejected true)) = 1
  /\ succeededBatches
       (ledger (addConfigLines CliV2
                  (Some (Sample.cacheOf Sample.v2Program (Sample.fresh 50)))
                  Sample.twoRejected true)) = 3
  /\ failedBatches
       (ledger (addConfigLines CliV2
                  (Some (Sample.cacheOf Sample.v2Program (Sample.fresh 50)))
                  Sample.twoRejected true)) = 2.
Proof. repeat split; vm_compute; reflexivity. Qed.

End ReportFacts.

(** ** Batches that are already on chain *)

Module IdempotenceFacts.
Import Js Batcher Cache Sync JsFacts BatcherFacts CacheFacts StepFacts ItemFacts RunFacts.
Import CommandFacts.

Lemma allFinished_pending ts : forallb isFinished ts = true -> pendingBatches ts = [].
Proof.
  unfold pendingBatches. induction ts as [|t ts IH]; [reflexivity|].
  cbn [forallb map concat]. intros H. apply andb_prop in H. destruct H as [Ht Hts].
  destruct t; [discriminate|]. cbn [taskBatches app]. auto.
Qed.

Section Loop.

Variable v : version.
Variable keys : list string.
Variable loaded : CacheContent.
Variable o : Items.
Hypothesis keys_of : keys = keysOf o.

(** When [Promise.all] is fulfilled no decision changes anything. *)
Lemma resume_finished d st :
  allFinished st = true -> resume v keys loaded d st = st.
Proof.
  unfold allFinished, resume. intros H.
  destruct (nth_error (tasks st) (who d)) as [[batch rest|]|] eqn:E; try reflexivity.
  apply nth_error_In in E. rewrite forallb_forall in H. apply H in E. discriminate.
Qed.

Lemma exec_finished ds st :
  allFinished st = true -> exec v keys loaded ds st = st.
Proof.
  intros H. induction ds as [|d ds IH]; [reflexivity|].
  cbn [exec fold_left]. rewrite resume_finished by assumption. apply IH.
Qed.

(** The items only evolve from the loaded ones, and every call made was for a
    batch with an index that was not on chain in the loaded cache. *)
Definition callsNeeded (st : state) : Prop :=
  (forall k, optRel (evolves v) (get o k) (get (cacheItems st) k))
  /\ forall call, In call (calls st) ->
       exists i, In i (indexes call) /\ isOnChain keys o i = false.

Lemma callsNeeded_initial : callsNeeded (initial keys loaded o).
Proof.
  destruct (initial_fields keys loaded o) as (ts & issued & Hs & ->).
  destruct (startAll_spec _ _ _ Hs) as (_ & _ & _ & _ & I5).
  split; cbn.
  - intros k. apply optRel_refl, evolves_refl.
  - intros call Hc. destruct (I5 _ Hc) as (b & -> & _ & Hi). exact Hi.
Qed.

Lemma callsNeeded_resume d st : callsNeeded st -> callsNeeded (resume v keys loaded d st).
Proof.
  intros [E C].
  assert (E' : forall k, optRel (evolves v) (get o k)
                           (get (cacheItems (resume v keys loaded d st)) k)).
  { intros k. eapply optRel_trans; [apply evolves_trans|apply E|apply get_resume]. }
  split; [exact E'|].
  destruct (step_view v keys loaded d st)
    as [->|batch skipped t issued pre post _ _ _ _ _ _ Hcase _ _ Hcalls _]; [exact C|].
  intros call Hc. rewrite Hcalls in Hc. apply in_app_or in Hc.
  destruct Hc as [Hc|Hc]; [now apply C|].
  destruct Hcase as [[_ ->]|(b & r & _ & -> & i & Hi & Hoff)]; [contradiction|].
  destruct Hc as [<-|[]]. exists i. split; [exact Hi|].
  destruct (isOnChain keys o i) eqn:On; [|reflexivity].
  rewrite (@isOnChain_evolves v keys o _ i E' On) in Hoff. discriminate.
Qed.

Lemma callsNeeded_exec ds : callsNeeded (exec v keys loaded ds (initial keys loaded o)).
Proof. apply exec_invariant; [apply callsNeeded_resume|apply callsNeeded_initial]. Qed.

(** With every index on chain no task has anything to submit. *)
Lemma initial_all_on :
  (forall i, i < length keys -> isOnChain keys o i = true) ->
  allFinished (initial keys loaded o) = true
  /\ calls (initial keys loaded o) = []
  /\ settled (initial keys loaded o) = []
  /\ addConfigSuccessful (initial keys loaded o) = true.
Proof.
  intros Hall.
  destruct (initial_fields keys loaded o) as (ts & issued & Hs & ->).
  destruct (startAll_spec _ _ _ Hs) as (_ & _ & _ & I4 & I5).
  assert (Hi : issued = []).
  { destruct issued as [|call issued]; [reflexivity|].
    destruct (I5 call (or_introl eq_refl)) as (b & _ & Hb & i & Hi & Hoff).
    rewrite Hall in Hoff; [discriminate|]. eapply partition_range; eassumption. }
  subst issued. unfold allFinished. cbn. repeat split.
  apply forallb_forall. intros [b r|] Ht; [|reflexivity].
  destruct (I4 _ _ Ht).
Qed.

(** While no batch has failed, an index is on chain or still in a batch to
    come. *)
Definition progressed (st : state) : Prop :=
  addConfigSuccessful st = true ->
  forall i, i < length keys ->
    (exists b, In b (pendingBatches (tasks st)) /\ In i b)
    \/ isOnChain keys (cacheItems st) i = true.

Lemma progressed_initial : progressed (initial keys loaded o).
Proof.
  destruct (initial_fields keys loaded o) as (ts & issued & Hs & ->).
  destruct (startAll_spec _ _ _ Hs) as (I1 & _).
  intros _ i Hi. cbn.
  assert (H : In i (concat (concat (partition (length keys))))).
  { rewrite partition_concat. apply in_seq. lia. }
  apply in_concat in H. destruct H as (b & Hb & Hib).
  destruct (I1 _ Hb) as [Hp|Hon]; [left; eauto|right; now apply Hon].
Qed.

Lemma progressed_resume d st :
  wellFormed keys o st -> progressed st -> progressed (resume v keys loaded d st).
Proof.
  intros (K & P & S) Pr.
  pose proof (get_resume v keys loaded d st) as Hev.
  destruct (step_view v keys loaded d st)
    as [->|batch skipped t issued pre post Hc Hin Hp Hp' Ht Hall Hcase Hd Hf Hcalls Hs];
    [exact Pr|].
  intros Hflag i Hi. rewrite Hf in Hflag. apply andb_prop in Hflag.
  destruct Hflag as [Hflag Hcom].
  assert (Hrpc : rpcOk d = true).
  { unfold settleOf in Hcom. destruct (rpcOk d); [reflexivity|discriminate]. }
  destruct (Pr Hflag i Hi) as [(b & Hb & Hib)|Hon].
  - rewrite Hp in Hb. rewrite Hp'.
    repeat (rewrite ?in_app_iff in Hb; cbn [In] in Hb).
    destruct Hb as [Hb|[[<-|[Hb|Hb]]|Hb]].
    + left. exists b. rewrite !in_app_iff. auto.
    + right. rewrite Hc, Hrpc.
      destruct (@itemAt_range keys (cacheItems st) i) as (it & E);
        [congruence|assumption|].
      destruct (@markAll_marks v keys batch _ i it Hib E) as (it' & E' & On & _).
      unfold isOnChain. now rewrite E'.
    + right. rewrite Forall_forall in Hall. now apply (Hall b).
    + left. exists b. rewrite !in_app_iff. auto.
    + left. exists b. rewrite !in_app_iff. auto.
  - right. now apply (@isOnChain_evolves v keys (cacheItems st) _ i Hev).
Qed.

Lemma progressed_exec ds : progressed (exec v keys loaded ds (initial keys loaded o)).
Proof.
  assert (H : wellFormed keys o (exec v keys loaded ds (initial keys loaded o))
              /\ progressed (exec v keys loaded ds (initial keys loaded o))).
  { apply (exec_invariant v keys loaded (fun s => wellFormed keys o s /\ progressed s)).
    - intros d st [W M]. split; [now apply wellFormed_resume|now apply progressed_resume].
    - split; [apply wellFormed_initial|apply progressed_initial]. }
  apply H.
Qed.

(** After a run in which nothing failed every index is on chain. *)
Lemma all_on_after_success ds :
  allFinished (exec v keys loaded ds (initial keys loaded o)) = true ->
  addConfigSuccessful (exec v keys loaded ds (initial keys loaded o)) = true ->
  forall i, i < length keys ->
    isOnChain keys (cacheItems (exec v keys loaded ds (initial keys loaded o))) i = true.
Proof.
  intros Hfin Hflag i Hi.
  destruct (progressed_exec ds Hflag Hi) as [(b & Hb & _)|Hon]; [|exact Hon].
  unfold allFinished in Hfin. rewrite (allFinished_pending _ Hfin) in Hb. destruct Hb.
Qed.

End Loop.

End IdempotenceFacts.

Module IdempotenceTheorem.
Import Js Batcher Cache Sync JsFacts BatcherFacts CacheFacts StepFacts ItemFacts RunFacts.
Import CommandFacts IdempotenceFacts.

Lemma ready_intro v c p o :
  program c = Some p -> truthyString (handle v p) = true -> items c = Some o ->
  ready v c o.
Proof. intros. exists p. auto. Qed.

Lemma cacheItems_initial keys loaded o : cacheItems (initial keys loaded o) = o.
Proof. destruct (initial_fields keys loaded o) as (ts & issued & _ & ->). reflexivity. Qed.

(** A run on a cache that is wholly on chain calls nothing and reports
    success. *)
Lemma all_on_run v c o schedule finalSaveOk :
  ready v c o ->
  (forall i, i < length (keysOf o) -> isOnChain (keysOf o) o i = true) ->
  remote (addConfigLines v (Some c) schedule finalSaveOk) = []
  /\ ledger (addConfigLines v (Some c) schedule finalSaveOk) = []
  /\ outcome (addConfigLines v (Some c) schedule finalSaveOk)
     = (if finalSaveOk then Done true else Threw IOError).
Proof.
  intros Hr Hall. rewrite (command_ready schedule finalSaveOk Hr). cbn.
  destruct (@initial_all_on (keysOf o) c o Hall) as (Hfin & Hcalls & Hset & Hflag).
  rewrite (@exec_finished v (keysOf o) c schedule _ Hfin).
  rewrite Hfin, Hcalls, Hset, Hflag. auto.
Qed.

(** C2: a batch whose indices are all on chain when the loop reaches it is
    passed over without a call, and a batch whose indices are all on chain in
    the loaded cache is never submitted during the run; so a run on a cache in
    which every record is on chain makes no remote call and reports success
    with no failed batch, and that is what a second run finds after a first
    run in which nothing failed. *)
Theorem sync_is_idempotent v c p o schedule :
  program c = Some p -> truthyString (handle v p) = true -> items c = Some o ->
  (forall now batch rest,
      (forall i, In i batch -> isOnChain (keysOf o) now i = true) ->
      advance (keysOf o) now (batch :: rest) = advance (keysOf o) now rest)
  /\ (forall finalSaveOk batch,
      (forall i, In i batch -> isOnChain (keysOf o) o i = true) ->
      forall call,
        In call (remote (addConfigLines v (Some c) schedule finalSaveOk)) ->
        indexes call <> batch)
  /\ ((forall i, i < length (keysOf o) -> isOnChain (keysOf o) o i = true) ->
      remote (addConfigLines v (Some c) schedule true) = []
      /\ outcome (addConfigLines v (Some c) schedule true) = Done true
      /\ failedBatches (ledger (addConfigLines v (Some c) schedule true)) = 0)
  /\ (outcome (addConfigLines v (Some c) schedule true) = Done true ->
      forall schedule',
        remote (addConfigLines v (stored (addConfigLines v (Some c) schedule true))
                  schedule' true) = []
        /\ outcome (addConfigLines v (stored (addConfigLines v (Some c) schedule true))
                      schedule' true) = Done true
        /\ failedBatches
             (ledger (addConfigLines v (stored (addConfigLines v (Some c) schedule true))
                        schedule' true)) = 0).
Proof.
  intros Hp Hh Ho. pose proof (ready_intro v c Hp Hh Ho) as Hr.
  split; [|split; [|split]].
  - intros now batch rest Hall. cbn [advance].
    rewrite (filter_keeps_all _ _ Hall), Nat.eqb_refl. reflexivity.
  - intros fs batch Hall call Hc Heq.
    rewrite (command_ready schedule fs Hr) in Hc. cbn in Hc.
    destruct (@callsNeeded_exec v (keysOf o) c o schedule) as [_ C].
    destruct (C _ Hc) as (i & Hi & Hoff). rewrite Heq in Hi.
    rewrite (Hall _ Hi) in Hoff. discriminate.
  - intros Hall. destruct (all_on_run schedule true Hr Hall) as (R & L & O).
    rewrite R, L, O. auto.
  - intros Hdone schedule'.
    rewrite (command_ready schedule true Hr) in Hdone |- *. cbn in Hdone |- *.
    set (st := exec v (keysOf o) c schedule (initial (keysOf o) c o)) in *.
    destruct (allFinished st) eqn:Hfin; [|discriminate].
    injection Hdone as Hflag. cbn [saveCache].
    assert (Hk : keysOf (cacheItems st) = keysOf o).
    { unfold st. rewrite keysOf_exec. now rewrite cacheItems_initial. }
    assert (Hr' : ready v (withItems c (cacheItems st)) (cacheItems st)).
    { exists p. cbn. auto. }
    assert (Hall : forall i, i < length (keysOf (cacheItems st)) ->
                     isOnChain (keysOf (cacheItems st)) (cacheItems st) i = true).
    { rewrite Hk. intros i Hi.
      apply (@all_on_after_success v (keysOf o) c o eq_refl schedule Hfin Hflag i Hi). }
    destruct (all_on_run schedule' true Hr' Hall) as (R & L & O).
    rewrite R, L, O. auto.
Qed.

Lemma sync_is_idempotent_witness :
  (forall now batch rest,
      (forall i, In i batch -> isOnChain (keysOf (Sample.fresh 20)) now i = true) ->
      advance (keysOf (Sample.fresh 20)) now (batch :: rest)
      = advance (keysOf (Sample.fresh 20)) now rest)
  /\ (forall finalSaveOk batch,
      (forall i, In i batch -> isOnChain (keysOf (Sample.fresh 20)) (Sample.fresh 20) i = true) ->
      forall call,
        In call (remote (addConfigLines CliV2
                           (Some (Sample.cacheOf Sample.v2Program (Sample.fresh 20)))
                           [Sample.ok 0; Sample.ok 0] finalSaveOk)) ->
        indexes call <> batch)
  /\ ((forall i, i < length (keysOf (Sample.fresh 20)) ->
         isOnChain (keysOf (Sample.fresh 20)) (Sample.fresh 20) i = true) ->
      remote (addConfigLines CliV2
                (Some (Sample.cacheOf Sample.v2Program (Sample.fresh 20)))
                [Sample.ok 0; Sample.ok 0] true) = []
      /\ outcome (addConfigLines CliV2
                    (Some (Sample.cacheOf Sample.v2Program (Sample.fresh 20)))
                    [Sample.ok 0; Sample.ok 0] true) = Done true
      /\ failedBatches
           (ledger (addConfigLines CliV2
                      (Some (Sample.cacheOf Sample.v2Program (Sample.fresh 20)))
                      [Sample.ok 0; Sample.ok 0] true)) = 0)
  /\ (outcome (addConfigLines CliV2
                 (Some (Sample.cacheOf Sample.v2Program (Sample.fresh 20)))
                 [Sample.ok 0; Sample.ok 0] true) = Done true ->
      forall schedule',
        remote (addConfigLines CliV2
                  (stored (addConfigLines CliV2
                             (Some (Sample.cacheOf Sample.v2Program (Sample.fresh 20)))
                             [Sample.ok 0; Sample.ok 0] true))
                  schedule' true) = []
        /\ outcome (addConfigLines CliV2
                      (stored (addConfigLines CliV2
                                 (Some (Sample.cacheOf Sample.v2Program (Sample.fresh 20)))
                                 [Sample.ok 0; Sample.ok 0] true))
                      schedule' true) = Done true
        /\ failedBatches
             (ledger (addConfigLines CliV2
                        (stored (addConfigLines CliV2
                                   (Some (Sample.cacheOf Sample.v2Program (Sample.fresh 20)))
                                   [Sample.ok 0; Sample.ok 0] true))
                        schedule' true)) = 0).
Proof.
  apply (@sync_is_idempotent CliV2
           (Sample.cacheOf Sample.v2Program (Sample.fresh 20)) Sample.v2Program
           (Sample.fresh 20) [Sample.ok 0; Sample.ok 0]);
    reflexivity.
Defined.

End IdempotenceTheorem.

(** ** A cache that is partly on chain *)

Module ResumptionFacts.
Import Js Batcher Cache Sync JsFacts BatcherFacts CacheFacts StepFacts ItemFacts RunFacts.
Import CommandFacts IdempotenceTheorem.

(** A task in its last iteration. *)
Definition inLastBatch (t : task) : Prop :=
  match t with Awaiting _ rest => rest = [] | Finished => True end.

Section Loop.

Variable v : version.
Variable keys : list string.
Variable loaded : CacheContent.

Lemma last_batch_resume d st :
  Forall inLastBatch (tasks st) ->
  Forall inLastBatch (tasks (resume v keys loaded d st))
  /\ calls (resume v keys loaded d st) = calls st.
Proof.
  intros Hl.
  destruct (step_view v keys loaded d st)
    as [->|batch skipped t issued pre post _ Hin _ _ Ht _ Hcase _ _ Hcalls _]; [auto|].
  rewrite Forall_forall in Hl. pose proof (Hl _ Hin) as E. cbn in E.
  apply app_eq_nil in E. destruct E as [_ Et].
  assert (t = Finished) as -> by (destruct t; [discriminate|reflexivity]).
  destruct Hcase as [[_ ->]|(b & r & [=] & _)].
  split; [|rewrite Hcalls; apply app_nil_r].
  apply Forall_forall. intros x Hx. destruct (Ht _ Hx) as [->|Hx']; [exact I|auto].
Qed.

Lemma last_batch_exec ds st :
  Forall inLastBatch (tasks st) -> calls (exec v keys loaded ds st) = calls st.
Proof.
  revert st. induction ds as [|d ds IH]; intros st Hl; [reflexivity|].
  cbn [exec fold_left]. destruct (@last_batch_resume d st Hl) as [Hl' Hc].
  fold (exec v keys loaded ds (resume v keys loaded d st)).
  rewrite IH by assumption. exact Hc.
Qed.

End Loop.

(** C3 (as amended): with ten records of which [0,3) are on chain and [3,10)
    are not, a run makes exactly one call, for the whole inner batch [0,10):
    it starts at the key of index 0 and carries all ten config lines, those of
    the three records on chain included. *)
Theorem resumed_run_submits_whole_batch v c p o schedule finalSaveOk :
  program c = Some p -> truthyString (handle v p) = true -> items c = Some o ->
  length o = 10 ->
  (forall i, i < 3 -> isOnChain (keysOf o) o i = true) ->
  (forall i, 3 <= i < 10 -> isOnChain (keysOf o) o i = false) ->
  remote (addConfigLines v (Some c) schedule finalSaveOk)
  = [callFor (keysOf o) o (seq 0 10)].
Proof.
  intros Hp Hh Ho Hlen Hon Hoff.
  rewrite (command_ready schedule finalSaveOk (ready_intro v c Hp Hh Ho)). cbn [remote].
  assert (Hk : length (keysOf o) = 10) by (unfold keysOf; now rewrite length_map).
  assert (Hi : tasks (initial (keysOf o) c o) = [Awaiting (seq 0 10) []]
               /\ calls (initial (keysOf o) c o) = [callFor (keysOf o) o (seq 0 10)]).
  { unfold initial. rewrite Hk.
    change (partition 10) with [[seq 0 10]].
    cbn [startAll advance seq filter].
    rewrite !Hon by lia. rewrite !Hoff by lia. cbn. auto. }
  destruct Hi as [Ht Hc].
  rewrite last_batch_exec; [exact Hc|].
  rewrite Ht. repeat constructor.
Qed.

Lemma resumed_run_submits_whole_batch_witness :
  remote (addConfigLines CliV2 (Some (Sample.cacheOf Sample.v2Program Sample.resumed))
            [Sample.ok 0] true)
  = [callFor (keysOf Sample.resumed) Sample.resumed (seq 0 10)].
Proof.
  apply (@resumed_run_submits_whole_batch CliV2
           (Sample.cacheOf Sample.v2Program Sample.resumed) Sample.v2Program
           Sample.resumed [Sample.ok 0] true); try reflexivity.
  - intros i Hi.
    destruct i as [|[|[|i]]]; [reflexivity|reflexivity|reflexivity|lia].
  - intros i Hi.
    do 3 (destruct i as [|i]; [lia|]).
    do 7 (destruct i as [|i]; [reflexivity|]). lia.
Defined.

(** C3 (as stated) fails: with the first three of ten records on chain the one
    call of the run holds the indices 0, 1 and 2 as well, and the lines of all
    ten records. *)
Lemma resumed_run_resubmits_committed :
  map (isOnChain (keysOf Sample.resumed) Sample.resumed) (seq 0 10)
  = [true; true; true; false; false; false; false; false; false; false]
  /\ map (fun call => (indexes call, ind call, length (configs call)))
         (remote (addConfigLines CliV2
                    (Some (Sample.cacheOf Sample.v2Program Sample.resumed))
                    [Sample.ok 0] true))
     = [([0; 1; 2; 3; 4; 5; 6; 7; 8; 9], Some "0"%string, 10)].
Proof. split; reflexivity. Qed.

End ResumptionFacts.

(** ** A call that is rejected *)

Module FailureFacts.
Import Js Batcher Cache Sync JsFacts BatcherFacts CacheFacts StepFacts ItemFacts RunFacts.
Import CommandFacts IdempotenceFacts IdempotenceTheorem.

Lemma settledIdx_snoc l b how : settledIdx (l ++ [(b, how)]) = settledIdx l ++ b.
Proof.
  unfold settledIdx. rewrite map_app, concat_app. cbn. now rewrite app_nil_r.
Qed.

Lemma occ_settled i b how l : In (b, how) l -> occ i b <= occ i (settledIdx l).
Proof.
  intros H. unfold settledIdx. apply occ_concat_In.
  change b with (fst (b, how)). now apply in_map.
Qed.

Section Loop.

Variable v : version.
Variable keys : list string.
Variable loaded : CacheContent.
Variable o : Items.
Hypothesis keys_of : keys = keysOf o.
Hypothesis keys_distinct : NoDup keys.

(** The [forEach] leaves the items of other indices alone. *)
Lemma itemAt_markOne_other oo i j :
  i <> j -> itemAt keys (markOne v keys oo j) i = itemAt keys oo i.
Proof.
  intros Hne. unfold itemAt, markOne.
  destruct (nth_error keys j) as [kj|] eqn:Ej; [|reflexivity].
  destruct (nth_error keys i) as [ki|] eqn:Ei; [|reflexivity].
  apply get_alter_other. intros ->.
  apply Hne. apply (proj1 (NoDup_nth_error keys) keys_distinct).
  - apply nth_error_Some. congruence.
  - congruence.
Qed.

Lemma itemAt_markAll_other batch oo i :
  ~ In i batch -> itemAt keys (markAll v keys batch oo) i = itemAt keys oo i.
Proof.
  unfold markAll. revert oo. induction batch as [|j batch IH]; intros oo Hn; [reflexivity|].
  cbn [fold_left]. rewrite IH by (intros H; apply Hn; now right).
  apply itemAt_markOne_other. intros ->. apply Hn. now left.
Qed.

(** No index is in two batches in play. *)
Definition disjointWork (st : state) : Prop :=
  forall i, occ i (concat (pendingBatches (tasks st))) + occ i (settledIdx (settled st)) <= 1.

(** An item is as it was loaded unless a batch with its index had its call
    fulfilled. *)
Definition untouched (st : state) : Prop :=
  forall i,
    (forall b how, In (b, how) (settled st) -> In i b -> how = CommitFailed) ->
    itemAt keys (cacheItems st) i = itemAt keys o i.

(** The batch a task waits for has been submitted. *)
Definition awaitedCalled (st : state) : Prop :=
  forall b r, In (Awaiting b r) (tasks st) -> In b (map indexes (calls st)).

(** A batch of the partition is still to come, or was submitted, or was
    wholly on chain when the cache was loaded. *)
Definition covered (st : state) : Prop :=
  forall b, In b (concat (partition (length keys))) ->
    In b (pendingBatches (tasks st)) \/ In b (map indexes (calls st)) \/ allOn keys o b.

Definition isolated (st : state) : Prop :=
  disjointWork st /\ untouched st /\ awaitedCalled st /\ covered st.

Lemma isolated_initial : isolated (initial keys loaded o).
Proof.
  destruct (initial_fields keys loaded o) as (ts & issued & Hs & ->).
  destruct (startAll_spec _ _ _ Hs) as (I1 & I2 & I3 & I4 & I5).
  split; [|split; [|split]].
  - intros i. cbn [tasks settled]. specialize (I3 i). rewrite partition_concat in I3.
    pose proof (occ_seq i 0 (length keys)).
    change (occ i (settledIdx [])) with 0. lia.
  - intros i _. reflexivity.
  - intros b r Hb. cbn [tasks calls] in *. change b with (indexes (callFor keys o b)).
    apply in_map. eapply I4; eassumption.
  - intros b Hb. cbn [tasks calls]. destruct (I1 _ Hb); auto.
Qed.

Lemma isolated_resume d st : isolated st -> isolated (resume v keys loaded d st).
Proof.
  intros (D & U & A & C).
  destruct (step_view v keys loaded d st)
    as [->|batch skipped t issued pre post Hc Hin Hp Hp' Ht Hall Hcase Hd Hf Hcalls Hs];
    [now repeat split|].
  assert (D' : disjointWork (resume v keys loaded d st)).
  { intros i. specialize (D i). rewrite Hp in D. rewrite Hp', Hs, settledIdx_snoc.
    rewrite !concat_app, !occ_app in *. cbn [concat] in D.
    rewrite !concat_app, !occ_app in D. lia. }
  assert (U' : untouched (resume v keys loaded d st)).
  { intros i Hi. rewrite Hc.
    assert (Hold : itemAt keys (cacheItems st) i = itemAt keys o i).
    { apply U. intros b how Hb. apply Hi. rewrite Hs. apply in_or_app. now left. }
    destruct (rpcOk d) eqn:Hrpc; [|exact Hold].
    rewrite itemAt_markAll_other; [exact Hold|].
    intros Hib.
    assert (E : settleOf d = CommitFailed).
    { apply (Hi batch); [|exact Hib]. rewrite Hs. apply in_or_app. right. now left. }
    unfold settleOf in E. rewrite Hrpc in E. destruct (saveOk d); discriminate. }
  assert (Hsub : forall b, In b (map indexes (calls st)) ->
                   In b (map indexes (calls (resume v keys loaded d st)))).
  { intros b Hb. rewrite Hcalls, map_app. apply in_or_app. now left. }
  split; [exact D'|]. split; [exact U'|]. split.
  - intros b r Hb. destruct (Ht _ Hb) as [E|Hold]; [|eauto].
    destruct Hcase as [[-> _]|(b' & r' & -> & -> & _)]; [discriminate|].
    injection E as -> ->. rewrite Hcalls, map_app. apply in_or_app. right. now left.
  - intros b Hb. destruct (C b Hb) as [Hpend|[Hcalled|Hon]]; [|auto|auto].
    rewrite Hp in Hpend. rewrite Hp'.
    repeat (rewrite ?in_app_iff in Hpend; cbn [In] in Hpend).
    destruct Hpend as [Hb'|[[<-|[Hb'|Hb']]|Hb']].
    + left. rewrite !in_app_iff. auto.
    + right. left. apply Hsub. eapply A. eassumption.
    + right. right. intros i Hib.
      rewrite Forall_forall in Hall. pose proof (Hall b Hb' i Hib) as Hon.
      assert (Hocc : 1 <= occ i b) by (apply occ_In in Hib; lia).
      pose proof (occ_concat_In i b skipped Hb') as Hsk.
      specialize (D i). rewrite Hp in D.
      rewrite !concat_app, !occ_app in D. cbn [concat] in D.
      rewrite !concat_app, !occ_app in D.
      assert (E : itemAt keys (cacheItems (resume v keys loaded d st)) i = itemAt keys o i).
      { apply U'. intros b0 how0 Hb0 Hib0. exfalso.
        assert (1 <= occ i b0) by (apply occ_In in Hib0; lia).
        rewrite Hs in Hb0. apply in_app_or in Hb0.
        destruct Hb0 as [Hb0|[[= <- <-]|[]]].
        - pose proof (occ_settled i _ _ _ Hb0). lia.
        - lia. }
      unfold isOnChain in *. now rewrite <- E.
    + left. rewrite !in_app_iff. auto.
    + left. rewrite !in_app_iff. auto.
Qed.

Lemma isolated_exec ds : isolated (exec v keys loaded ds (initial keys loaded o)).
Proof. apply exec_invariant; [apply isolated_resume|apply isolated_initial]. Qed.

(** The items of a batch whose call was rejected are as they were loaded. *)
Lemma rejected_batch_unchanged ds batch i :
  In (batch, CommitFailed) (settled (exec v keys loaded ds (initial keys loaded o))) ->
  In i batch ->
  itemAt keys (cacheItems (exec v keys loaded ds (initial keys loaded o))) i
  = itemAt keys o i.
Proof.
  intros Hb Hi. destruct (isolated_exec ds) as (D & U & _ & _).
  apply U. intros b how Hb' Hi'.
  specialize (D i).
  assert (H1 : 1 <= occ i batch) by (apply occ_In in Hi; lia).
  assert (H2 : 1 <= occ i b) by (apply occ_In in Hi'; lia).
  revert Hb Hb' D. generalize (settled (exec v keys loaded ds (initial keys loaded o))).
  intros l. induction l as [|[b0 how0] l IH]; [contradiction|].
  unfold settledIdx in *. cbn [map concat fst In]. rewrite occ_app.
  intros [E|Hb] [E'|Hb'] D.
  - congruence.
  - injection E as -> ->. pose proof (occ_settled i _ _ _ Hb'). unfold settledIdx in *. lia.
  - injection E' as -> ->. pose proof (occ_settled i _ _ _ Hb). unfold settledIdx in *. lia.
  - apply IH; auto. lia.
Qed.

(** When [Promise.all] is fulfilled every batch with a record that was not on
    chain has been submitted. *)
Lemma pending_batches_submitted ds batch :
  allFinished (exec v keys loaded ds (initial keys loaded o)) = true ->
  In batch (concat (partition (length keys))) ->
  (exists i, In i batch /\ isOnChain keys o i = false) ->
  exists call, In call (calls (exec v keys loaded ds (initial keys loaded o)))
               /\ indexes call = batch.
Proof.
  intros Hfin Hb (i & Hi & Hoff). destruct (isolated_exec ds) as (_ & _ & _ & C).
  destruct (C _ Hb) as [Hpend|[Hcalled|Hon]].
  - unfold allFinished in Hfin. rewrite (allFinished_pending _ Hfin) in Hpend. destruct Hpend.
  - apply in_map_iff in Hcalled. destruct Hcalled as (call & E & Hc). eauto.
  - rewrite (Hon _ Hi) in Hoff. discriminate.
Qed.

End Loop.

End FailureFacts.

Module FailureTheorem.
Import Js Batcher Cache Sync JsFacts BatcherFacts CacheFacts StepFacts ItemFacts RunFacts.
Import CommandFacts IdempotenceFacts IdempotenceTheorem ReportFacts FailureFacts.

Lemma firstAwaiting_None ts : firstAwaiting ts = None -> forallb isFinished ts = true.
Proof.
  induction ts as [|[b r|] ts IH]; cbn [firstAwaiting forallb isFinished];
    [reflexivity|discriminate|].
  destruct (firstAwaiting ts); [discriminate|]. auto.
Qed.

Lemma firstAwaiting_Some ts j :
  firstAwaiting ts = Some j -> exists b r, nth_error ts j = Some (Awaiting b r).
Proof.
  revert j. induction ts as [|[b r|] ts IH]; intros j; cbn [firstAwaiting].
  - discriminate.
  - intros [= <-]. cbn. eauto.
  - destruct (firstAwaiting ts) as [j'|]; [|discriminate].
    intros [= <-]. cbn. apply IH. reflexivity.
Qed.

Section Loop.

Variable v : version.
Variable keys : list string.
Variable loaded : CacheContent.

(** Resuming a suspended task leaves fewer batches to come. *)
Lemma resume_fewer d st b r :
  nth_error (tasks st) (who d) = Some (Awaiting b r) ->
  length (pendingBatches (tasks (resume v keys loaded d st)))
  < length (pendingBatches (tasks st)).
Proof.
  intros E. unfold resume. rewrite E.
  destruct (advance keys _ r) as [t issued] eqn:Ea. cbn [tasks].
  destruct (advance_spec _ _ _ Ea) as (skipped & -> & _ & _).
  destruct (pendingBatches_setNth _ _ E) as (pre & post & -> & ->).
  rewrite !length_app. cbn [taskBatches length]. rewrite !length_app. lia.
Qed.

(** Whatever has happened so far, the run can be brought to its end. *)
Lemma drain_finishes fuel st :
  length (pendingBatches (tasks st)) <= fuel ->
  allFinished (exec v keys loaded (drain v keys loaded fuel st) st) = true.
Proof.
  revert st. induction fuel as [|fuel IH]; intros st Hm.
  - cbn [drain exec fold_left]. unfold allFinished.
    destruct (firstAwaiting (tasks st)) as [j|] eqn:E;
      [|now apply firstAwaiting_None].
    destruct (firstAwaiting_Some _ E) as (b & r & Hn).
    destruct (pendingBatches_setNth _ _ Hn) as (pre & post & Hp & _).
    rewrite Hp, !length_app in Hm. cbn in Hm. lia.
  - cbn [drain]. destruct (firstAwaiting (tasks st)) as [j|] eqn:E.
    + destruct (firstAwaiting_Some _ E) as (b & r & Hn).
      cbn [exec fold_left]. apply IH.
      pose proof (@resume_fewer {| who := j; rpcOk := true; saveOk := true |} st b r Hn).
      lia.
    + cbn [exec fold_left]. now apply firstAwaiting_None.
Qed.

End Loop.

Section Later.

Variable v : version.
Variable keys : list string.
Variable loaded : CacheContent.

(** What has settled stays settled. *)
Lemma settled_kept ds st x :
  In x (settled st) -> In x (settled (exec v keys loaded ds st)).
Proof.
  intros H. apply (exec_invariant v keys loaded (fun s => In x (settled s))); [|exact H].
  intros d s Hs.
  destruct (resume_view v keys loaded d s) as [->|batch rest t issued _ _ _ _ _ _ _ E];
    [exact Hs|].
  rewrite E. apply in_or_app. now left.
Qed.

(** Once cleared, the flag stays cleared. *)
Lemma flag_stays_false ds st :
  addConfigSuccessful st = false ->
  addConfigSuccessful (exec v keys loaded ds st) = false.
Proof.
  intros H.
  apply (exec_invariant v keys loaded (fun s => addConfigSuccessful s = false)); [|exact H].
  intros d s Hs.
  destruct (resume_view v keys loaded d s) as [->|batch rest t issued _ _ _ _ E _ _ _];
    [exact Hs|].
  rewrite E, Hs. reflexivity.
Qed.

(** What the [catch] block and the rest of the loop do when the call a task
    waits for is rejected. *)
Lemma resume_rejected d st batch rest :
  nth_error (tasks st) (who d) = Some (Awaiting batch rest) ->
  rpcOk d = false ->
  cacheItems (resume v keys loaded d st) = cacheItems st
  /\ disk (resume v keys loaded d st) = disk st
  /\ addConfigSuccessful (resume v keys loaded d st) = false
  /\ settled (resume v keys loaded d st) = settled st ++ [(batch, CommitFailed)]
  /\ tasks (resume v keys loaded d st)
     = setNth (who d) (fst (advance keys (cacheItems st) rest)) (tasks st)
  /\ calls (resume v keys loaded d st)
     = calls st ++ snd (advance keys (cacheItems st) rest).
Proof.
  intros Hn Hrej. unfold resume, settleOf. rewrite Hn, Hrej.
  destruct (advance keys (cacheItems st) rest) as [t issued]. cbn. repeat split.
Qed.

End Later.

(** C5: when the call a task waits for is rejected (at any point of any run,
    whatever happened before and happens after), the step that handles the
    rejection changes neither the items in memory nor the cache file; it
    clears the success flag and enters the batch as failed; and it does not
    stop the task, which goes on through the rest of its loop and submits the
    next batch that is not wholly on chain, while the tasks of the other
    chunks are left as they are.  For the run as a whole: the batch is in the
    ledger as failed and its items stay as they were loaded (none is marked
    on chain) at every later point; a run that ends reports
    [Successful = false], and by then every batch that held a record not on
    chain has been submitted; and there is a continuation that brings the run
    to its end, with that report. *)
Theorem rejected_batch_is_isolated v c p o before d after batch rest st st' :
  program c = Some p -> truthyString (handle v p) = true -> items c = Some o ->
  NoDup (keysOf o) ->
  st = exec v (keysOf o) c before (initial (keysOf o) c o) ->
  nth_error (tasks st) (who d) = Some (Awaiting batch rest) ->
  rpcOk d = false ->
  st' = resume v (keysOf o) c d st ->
  (cacheItems st' = cacheItems st /\ disk st' = disk st)
  /\ (addConfigSuccessful st' = false
      /\ settled st' = settled st ++ [(batch, CommitFailed)])
  /\ (tasks st' = setNth (who d) (fst (advance (keysOf o) (cacheItems st) rest)) (tasks st)
      /\ calls st' = calls st ++ snd (advance (keysOf o) (cacheItems st) rest)
      /\ (forall j, j <> who d -> nth_error (tasks st') j = nth_error (tasks st) j)
      /\ length (pendingBatches (tasks st')) < length (pendingBatches (tasks st)))
  /\ (forall finalSaveOk,
        In (batch, CommitFailed)
           (ledger (addConfigLines v (Some c) (before ++ d :: after) finalSaveOk))
        /\ forall i, In i batch ->
             itemAt (keysOf o)
               (memory (addConfigLines v (Some c) (before ++ d :: after) finalSaveOk)) i
             = itemAt (keysOf o) o i)
  /\ (forall successful,
        outcome (addConfigLines v (Some c) (before ++ d :: after) true) = Done successful ->
        successful = false)
  /\ (forall finalSaveOk b,
        outcome (addConfigLines v (Some c) (before ++ d :: after) finalSaveOk) <> InFlight ->
        In b (concat (partition (length (keysOf o)))) ->
        (exists i, In i b /\ isOnChain (keysOf o) o i = false) ->
        exists call,
          In call (remote (addConfigLines v (Some c) (before ++ d :: after) finalSaveOk))
          /\ indexes call = b)
  /\ (exists more,
        (forall finalSaveOk,
            outcome (addConfigLines v (Some c) ((before ++ d :: after) ++ more) finalSaveOk)
            <> InFlight)
        /\ outcome (addConfigLines v (Some c) ((before ++ d :: after) ++ more) true)
           = Done false).
Proof.
  intros Hp Hh Ho Hnd Est Hn Hrej Est'. pose proof (ready_intro v c Hp Hh Ho) as Hr.
  destruct (resume_rejected v (keysOf o) c d st Hn Hrej) as (Hc & Hd & Hf & Hs & Ht & Hcalls).
  rewrite <- Est' in Hc, Hd, Hf, Hs, Ht, Hcalls.
  assert (Hexec : forall more,
            exec v (keysOf o) c ((before ++ d :: after) ++ more) (initial (keysOf o) c o)
            = exec v (keysOf o) c (after ++ more) st').
  { intros more. rewrite <- app_assoc. cbn [app]. rewrite exec_app, <- Est.
    cbn [exec fold_left]. now rewrite Est'. }
  assert (Hexec0 : exec v (keysOf o) c (before ++ d :: after) (initial (keysOf o) c o)
                   = exec v (keysOf o) c after st').
  { rewrite <- (app_nil_r (before ++ d :: after)), Hexec, app_nil_r. reflexivity. }
  assert (Hin : forall ds, In (batch, CommitFailed) (settled (exec v (keysOf o) c ds st'))).
  { intros ds. apply settled_kept. rewrite Hs. apply in_or_app. right. now left. }
  split; [auto|]. split; [auto|]. split; [|split; [|split; [|split]]].
  - split; [exact Ht|]. split; [exact Hcalls|]. split.
    + intros j Hj. rewrite Ht, nth_error_setNth.
      destruct (Nat.eqb_spec (who d) j) as [E|_]; [now contradiction Hj|reflexivity].
    + rewrite Est'. apply (@resume_fewer v (keysOf o) c d st batch rest Hn).
  - intros fs. rewrite (command_ready _ fs Hr). cbn [ledger memory]. split.
    + rewrite Hexec0. apply Hin.
    + intros i Hi.
      apply (@rejected_batch_unchanged v (keysOf o) c o Hnd (before ++ d :: after) batch i);
        [|exact Hi].
      rewrite Hexec0. apply Hin.
  - intros successful. rewrite (command_ready _ true Hr). cbn [outcome].
    rewrite Hexec0.
    destruct (allFinished _); [|discriminate]. intros [= <-].
    now apply flag_stays_false.
  - intros fs b Hout Hb Hi.
    rewrite (command_ready _ fs Hr) in Hout |- *. cbn in Hout |- *.
    apply (@pending_batches_submitted v (keysOf o) c o Hnd (before ++ d :: after) b); auto.
    destruct (allFinished _); [reflexivity|contradiction].
  - set (end_ := exec v (keysOf o) c after st').
    exists (drain v (keysOf o) c (length (pendingBatches (tasks end_))) end_).
    assert (Hfin : allFinished
                     (exec v (keysOf o) c
                        ((before ++ d :: after)
                           ++ drain v (keysOf o) c (length (pendingBatches (tasks end_))) end_)
                        (initial (keysOf o) c o)) = true).
    { rewrite exec_app, Hexec0. fold end_. apply drain_finishes. lia. }
    split.
    + intros fs. rewrite (command_ready _ fs Hr). cbn [outcome]. rewrite Hfin.
      now destruct fs.
    + rewrite (command_ready _ true Hr). cbn [outcome]. rewrite Hfin. f_equal.
      rewrite Hexec. now apply flag_stays_false.
Qed.

Lemma NoDup_by_count (l : list string) :
  forallb (fun k => count_occ string_dec l k =? 1) l = true -> NoDup l.
Proof.
  intros H. apply (NoDup_count_occ' string_dec). intros k Hk.
  rewrite forallb_forall in H. now apply Nat.eqb_eq, H.
Qed.

Lemma rejected_batch_is_isolated_witness :
  (cacheItems
     (resume CliV2 (keysOf (Sample.fresh 20))
        (Sample.cacheOf Sample.v2Program (Sample.fresh 20)) (Sample.rejected 0)
        (initial (keysOf (Sample.fresh 20))
           (Sample.cacheOf Sample.v2Program (Sample.fresh 20)) (Sample.fresh 20)))
   = cacheItems
       (initial (keysOf (Sample.fresh 20))
          (Sample.cacheOf Sample.v2Program (Sample.fresh 20)) (Sample.fresh 20))
   /\ disk
        (resume CliV2 (keysOf (Sample.fresh 20))
           (Sample.cacheOf Sample.v2Program (Sample.fresh 20)) (Sample.rejected 0)
           (initial (keysOf (Sample.fresh 20))
              (Sample.cacheOf Sample.v2Program (Sample.fresh 20)) (Sample.fresh 20)))
      = disk
          (initial (keysOf (Sample.fresh 20))
             (Sample.cacheOf Sample.v2Program (Sample.fresh 20)) (Sample.fresh 20)))
  /\ (addConfigSuccessful
        (resume CliV2 (keysOf (Sample.fresh 20))
           (Sample.cacheOf Sample.v2Program (Sample.fresh 20)) (Sample.rejected 0)
           (initial (keysOf (Sample.fresh 20))
              (Sample.cacheOf Sample.v2Program (Sample.fresh 20)) (Sample.fresh 20)))
      = false
      /\ settled
           (resume CliV2 (keysOf (Sample.fresh 20))
              (Sample.cacheOf Sample.v2Program (Sample.fresh 20)) (Sample.rejected 0)
              (initial (keysOf (Sample.fresh 20))
                 (Sample.cacheOf Sample.v2Program (Sample.fresh 20)) (Sample.fresh 20)))
         = settled
             (initial (keysOf (Sample.fresh 20))
                (Sample.cacheOf Sample.v2Program (Sample.fresh 20)) (Sample.fresh 20))
           ++ [(seq 0 10, CommitFailed)])
  /\ (tasks
        (resume CliV2 (keysOf (Sample.fresh 20))
           (Sample.cacheOf Sample.v2Program (Sample.fresh 20)) (Sample.rejected 0)
           (initial (keysOf (Sample.fresh 20))
              (Sample.cacheOf Sample.v2Program (Sample.fresh 20)) (Sample.fresh 20)))
      = setNth (who (Sample.rejected 0))
          (fst (advance (keysOf (Sample.fresh 20))
                  (cacheItems
                     (initial (keysOf (Sample.fresh 20))
                        (Sample.cacheOf Sample.v2Program (Sample.fresh 20))
                        (Sample.fresh 20)))
                  [seq 10 10]))
          (tasks
             (initial (keysOf (Sample.fresh 20))
                (Sample.cacheOf Sample.v2Program (Sample.fresh 20)) (Sample.fresh 20)))
      /\ calls
           (resume CliV2 (keysOf (Sample.fresh 20))
              (Sample.cacheOf Sample.v2Program (Sample.fresh 20)) (Sample.rejected 0)
              (initial (keysOf (Sample.fresh 20))
                 (Sample.cacheOf Sample.v2Program (Sample.fresh 20)) (Sample.fresh 20)))
         = calls
             (initial (keysOf (Sample.fresh 20))
                (Sample.cacheOf Sample.v2Program (Sample.fresh 20)) (Sample.fresh 20))
           ++ snd (advance (keysOf (Sample.fresh 20))
                     (cacheItems
                        (initial (keysOf (Sample.fresh 20))
                           (Sample.cacheOf Sample.v2Program (Sample.fresh 20))
                           (Sample.fresh 20)))
                     [seq 10 10])
      /\ (forall j, j <> who (Sample.rejected 0) ->
            nth_error
              (tasks
                 (resume CliV2 (keysOf (Sample.fresh 20))
                    (Sample.cacheOf Sample.v2Program (Sample.fresh 20))
                    (Sample.rejected 0)
                    (initial (keysOf (Sample.fresh 20))
                       (Sample.cacheOf Sample.v2Program (Sample.fresh 20))
                       (Sample.fresh 20)))) j
            = nth_error
                (tasks
                   (initial (keysOf (Sample.fresh 20))
                      (Sample.cacheOf Sample.v2Program (Sample.fresh 20))
                      (Sample.fresh 20))) j)
      /\ length
           (pendingBatches
              (tasks
                 (resume CliV2 (keysOf (Sample.fresh 20))
                    (Sample.cacheOf Sample.v2Program (Sample.fresh 20))
                    (Sample.rejected 0)
                    (initial (keysOf (Sample.fresh 20))
                       (Sample.cacheOf Sample.v2Program (Sample.fresh 20))
                       (Sample.fresh 20)))))
         < length
             (pendingBatches
                (tasks
                   (initial (keysOf (Sample.fresh 20))
                      (Sample.cacheOf Sample.v2Program (Sample.fresh 20))
                      (Sample.fresh 20)))))
  /\ (forall finalSaveOk,
        In (seq 0 10, CommitFailed)
           (ledger (addConfigLines CliV2
                      (Some (Sample.cacheOf Sample.v2Program (Sample.fresh 20)))
                      ([] ++ Sample.rejected 0 :: [Sample.ok 0]) finalSaveOk))
        /\ forall i, In i (seq 0 10) ->
             itemAt (keysOf (Sample.fresh 20))
               (memory (addConfigLines CliV2
                          (Some (Sample.cacheOf Sample.v2Program (Sample.fresh 20)))
                          ([] ++ Sample.rejected 0 :: [Sample.ok 0]) finalSaveOk)) i
             = itemAt (keysOf (Sample.fresh 20)) (Sample.fresh 20) i)
  /\ (forall successful,
        outcome (addConfigLines CliV2
                   (Some (Sample.cacheOf Sample.v2Program (Sample.fresh 20)))
                   ([] ++ Sample.rejected 0 :: [Sample.ok 0]) true) = Done successful ->
        successful = false)
  /\ (forall finalSaveOk b,
        outcome (addConfigLines CliV2
                   (Some (Sample.cacheOf Sample.v2Program (Sample.fresh 20)))
                   ([] ++ Sample.rejected 0 :: [Sample.ok 0]) finalSaveOk) <> InFlight ->
        In b (concat (partition (length (keysOf (Sample.fresh 20))))) ->
        (exists i, In i b
                   /\ isOnChain (keysOf (Sample.fresh 20)) (Sample.fresh 20) i = false) ->
        exists call,
          In call (remote (addConfigLines CliV2
                             (Some (Sample.cacheOf Sample.v2Program (Sample.fresh 20)))
                             ([] ++ Sample.rejected 0 :: [Sample.ok 0]) finalSaveOk))
          /\ indexes call = b)
  /\ (exists more,
        (forall finalSaveOk,
            outcome (addConfigLines CliV2
                       (Some (Sample.cacheOf Sample.v2Program (Sample.fresh 20)))
                       (([] ++ Sample.rejected 0 :: [Sample.ok 0]) ++ more) finalSaveOk)
            <> InFlight)
        /\ outcome (addConfigLines CliV2
                      (Some (Sample.cacheOf Sample.v2Program (Sample.fresh 20)))
                      (([] ++ Sample.rejected 0 :: [Sample.ok 0]) ++ more) true)
           = Done false).
Proof.
  apply (@rejected_batch_is_isolated CliV2
           (Sample.cacheOf Sample.v2Program (Sample.fresh 20)) Sample.v2Program
           (Sample.fresh 20) [] (Sample.rejected 0) [Sample.ok 0] (seq 0 10) [seq 10 10]
           (initial (keysOf (Sample.fresh 20))
              (Sample.cacheOf Sample.v2Program (Sample.fresh 20)) (Sample.fresh 20))
           (resume CliV2 (keysOf (Sample.fresh 20))
              (Sample.cacheOf Sample.v2Program (Sample.fresh 20)) (Sample.rejected 0)
              (initial (keysOf (Sample.fresh 20))
                 (Sample.cacheOf Sample.v2Program (Sample.fresh 20)) (Sample.fresh 20))));
    try reflexivity.
  apply NoDup_by_count. vm_compute. reflexivity.
Defined.

(** The run of the witness, computed: the first call is rejected and the
    second fulfilled; the run ends with [Successful = false], the second batch
    was submitted after the rejection, the items of the first batch are not on
    chain and those of the second are. *)
Lemma rejected_then_fulfilled :
  outcome (addConfigLines CliV2
             (Some (Sample.cacheOf Sample.v2Program (Sample.fresh 20)))
             [Sample.rejected 0; Sample.ok 0] true)
  = Done false
  /\ ledger (addConfigLines CliV2
               (Some (Sample.cacheOf Sample.v2Program (Sample.fresh 20)))
               [Sample.rejected 0; Sample.ok 0] true)
     = [(seq 0 10, CommitFailed); (seq 10 10, Committed)]
  /\ map indexes
         (remote (addConfigLines CliV2
                    (Some (Sample.cacheOf Sample.v2Program (Sample.fresh 20)))
                    [Sample.rejected 0; Sample.ok 0] true))
     = [seq 0 10; seq 10 10]
  /\ map (isOnChain (keysOf (Sample.fresh 20))
            (memory (addConfigLines CliV2
                       (Some (Sample.cacheOf Sample.v2Program (Sample.fresh 20)))
                       [Sample.rejected 0; Sample.ok 0] true)))
         (seq 0 20)
     = repeat false 10 ++ repeat true 10.
Proof. repeat split. Qed.

End FailureTheorem.

(** ** The two command files side by side *)

Module VersionFacts.
Import Js Batcher Cache Sync JsFacts BatcherFacts CacheFacts StepFacts ItemFacts RunFacts.
Import CommandFacts IdempotenceTheorem.

Lemma agree_keysOf o1 o2 : agree o1 o2 -> keysOf o1 = keysOf o2.
Proof.
  unfold agree, keysOf. induction 1 as [|[k1 a] [k2 b] o1 o2 [Hk _] _ IH]; [reflexivity|].
  cbn in *. congruence.
Qed.

Lemma agree_get o1 o2 k : agree o1 o2 -> optRel sameLine (get o1 k) (get o2 k).
Proof.
  unfold agree. induction 1 as [|[k1 a] [k2 b] o1 o2 [Hk Hl] _ IH]; [exact I|].
  cbn in Hk, Hl. subst k2. cbn [get]. destruct (String.eqb k1 k); [exact Hl|exact IH].
Qed.

Lemma agree_alter f g k o1 o2 :
  (forall a b, sameLine a b -> sameLine (f a) (g b)) ->
  agree o1 o2 -> agree (alter f k o1) (alter g k o2).
Proof.
  intros Hfg. unfold agree.
  induction 1 as [|[k1 a] [k2 b] o1 o2 [Hk Hl] Hrest IH]; [constructor|].
  cbn in Hk, Hl. subst k2. cbn [alter].
  destruct (String.eqb k1 k); constructor; cbn; auto.
Qed.

Lemma sameLine_commit v1 v2 a b :
  sameLine a b -> sameLine (commitMark v1 a) (commitMark v2 b).
Proof.
  unfold sameLine. intros (N & L & O). destruct v1, v2; cbn; auto.
Qed.

Section Pair.

Variables v1 v2 : version.
Variable keys : list string.
Variables loaded1 loaded2 : CacheContent.

Lemma agree_markAll batch o1 o2 :
  agree o1 o2 -> agree (markAll v1 keys batch o1) (markAll v2 keys batch o2).
Proof.
  unfold markAll. revert o1 o2. induction batch as [|i batch IH]; intros o1 o2 H;
    [exact H|].
  cbn [fold_left]. apply IH. unfold markOne.
  destruct (nth_error keys i); [|exact H].
  apply agree_alter; [apply sameLine_commit|exact H].
Qed.

Lemma agree_itemAt o1 o2 i :
  agree o1 o2 -> optRel sameLine (itemAt keys o1 i) (itemAt keys o2 i).
Proof.
  intros H. unfold itemAt. destruct (nth_error keys i); [now apply agree_get|exact I].
Qed.

Lemma agree_isOnChain o1 o2 i :
  agree o1 o2 -> isOnChain keys o1 i = isOnChain keys o2 i.
Proof.
  intros H. pose proof (agree_itemAt i H) as R. unfold isOnChain.
  destruct (itemAt keys o1 i), (itemAt keys o2 i); cbn in R; try contradiction;
    [|reflexivity].
  destruct R as (_ & _ & ->). reflexivity.
Qed.

Lemma agree_callFor o1 o2 batch :
  agree o1 o2 -> callFor keys o1 batch = callFor keys o2 batch.
Proof.
  intros H. unfold callFor. f_equal. apply map_ext. intros i.
  pose proof (agree_itemAt i H) as R. unfold configLine.
  destruct (itemAt keys o1 i), (itemAt keys o2 i); cbn in R; try contradiction;
    [|reflexivity].
  destruct R as (-> & -> & _). reflexivity.
Qed.

Lemma agree_advance o1 o2 iterations :
  agree o1 o2 -> advance keys o1 iterations = advance keys o2 iterations.
Proof.
  intros H. induction iterations as [|batch rest IH]; [reflexivity|].
  cbn [advance]. rewrite IH, (agree_callFor batch H).
  rewrite (filter_ext _ _ (fun i => agree_isOnChain i H)). reflexivity.
Qed.

Lemma agree_startAll o1 o2 slices :
  agree o1 o2 -> startAll keys o1 slices = startAll keys o2 slices.
Proof.
  intros H. induction slices as [|iterations more IH]; [reflexivity|].
  cbn [startAll]. now rewrite IH, (agree_advance iterations H).
Qed.

(** The two runs are at the same point: the items agree, and the tasks, the
    calls made, the settled batches and the flag are the same. *)
Definition inStep (st1 st2 : state) : Prop :=
  agree (cacheItems st1) (cacheItems st2)
  /\ tasks st1 = tasks st2
  /\ calls st1 = calls st2
  /\ settled st1 = settled st2
  /\ addConfigSuccessful st1 = addConfigSuccessful st2.

Lemma inStep_initial o1 o2 :
  agree o1 o2 -> inStep (initial keys loaded1 o1) (initial keys loaded2 o2).
Proof.
  intros H. unfold initial. rewrite (agree_startAll _ H).
  destruct (startAll keys o2 (partition (length keys))) as [ts issued].
  repeat split; cbn; auto.
Qed.

Lemma inStep_resume d st1 st2 :
  inStep st1 st2 ->
  inStep (resume v1 keys loaded1 d st1) (resume v2 keys loaded2 d st2).
Proof.
  intros (A & T & C & S & F). unfold resume. rewrite <- T.
  destruct (nth_error (tasks st1) (who d)) as [[batch rest|]|];
    try (repeat split; assumption).
  assert (A' : agree (if rpcOk d then markAll v1 keys batch (cacheItems st1)
                      else cacheItems st1)
                     (if rpcOk d then markAll v2 keys batch (cacheItems st2)
                      else cacheItems st2)).
  { destruct (rpcOk d); [now apply agree_markAll|exact A]. }
  rewrite (agree_advance rest A').
  destruct (advance keys _ rest) as [t issued].
  split; [exact A'|]. cbn. rewrite C, S, F. auto.
Qed.

Lemma inStep_exec ds st1 st2 :
  inStep st1 st2 ->
  inStep (exec v1 keys loaded1 ds st1) (exec v2 keys loaded2 ds st2).
Proof.
  revert st1 st2. induction ds as [|d ds IH]; intros st1 st2 H; [exact H|].
  cbn [exec fold_left]. apply IH. now apply inStep_resume.
Qed.

End Pair.

(** C10 (as amended): on caches with the same item keys, names, links and
    onChain flags, in which each file finds the address it reads
    ([program.candyMachine] for lorelabs-cli-v2.ts, [program.config] for the
    older file), and with the remote calls returning alike, the two
    [addConfigLines] submit the same index ranges in the same order with the
    same start key and the same (uri, name) lines, settle the same batches and
    end alike. *)
Theorem versions_submit_the_same c1 c2 p1 p2 o1 o2 schedule finalSaveOk :
  program c1 = Some p1 -> truthyString (candyMachine p1) = true -> items c1 = Some o1 ->
  program c2 = Some p2 -> truthyString (config p2) = true -> items c2 = Some o2 ->
  agree o1 o2 ->
  remote (addConfigLines CliV2 (Some c1) schedule finalSaveOk)
  = remote (addConfigLines CliV1 (Some c2) schedule finalSaveOk)
  /\ ledger (addConfigLines CliV2 (Some c1) schedule finalSaveOk)
     = ledger (addConfigLines CliV1 (Some c2) schedule finalSaveOk)
  /\ outcome (addConfigLines CliV2 (Some c1) schedule finalSaveOk)
     = outcome (addConfigLines CliV1 (Some c2) schedule finalSaveOk).
Proof.
  intros Hp1 Hh1 Ho1 Hp2 Hh2 Ho2 Ha.
  rewrite (command_ready schedule finalSaveOk (@ready_intro CliV2 c1 p1 o1 Hp1 Hh1 Ho1)).
  rewrite (command_ready schedule finalSaveOk (@ready_intro CliV1 c2 p2 o2 Hp2 Hh2 Ho2)).
  cbn. rewrite <- (agree_keysOf Ha).
  destruct (@inStep_exec CliV2 CliV1 (keysOf o1) c1 c2 schedule _ _
              (@inStep_initial (keysOf o1) c1 c2 o1 o2 Ha)) as (_ & T & C & S & F).
  unfold allFinished. rewrite T, C, S, F. auto.
Qed.

Lemma versions_submit_the_same_witness :
  remote (addConfigLines CliV2 (Some (Sample.cacheOf Sample.bothProgram (Sample.fresh 20)))
            [Sample.ok 0; Sample.rejected 0] true)
  = remote (addConfigLines CliV1
              (Some (Sample.cacheOf Sample.bothProgram (Sample.fresh 20)))
              [Sample.ok 0; Sample.rejected 0] true)
  /\ ledger (addConfigLines CliV2
               (Some (Sample.cacheOf Sample.bothProgram (Sample.fresh 20)))
               [Sample.ok 0; Sample.rejected 0] true)
     = ledger (addConfigLines CliV1
                 (Some (Sample.cacheOf Sample.bothProgram (Sample.fresh 20)))
                 [Sample.ok 0; Sample.rejected 0] true)
  /\ outcome (addConfigLines CliV2
                (Some (Sample.cacheOf Sample.bothProgram (Sample.fresh 20)))
                [Sample.ok 0; Sample.rejected 0] true)
     = outcome (addConfigLines CliV1
                  (Some (Sample.cacheOf Sample.bothProgram (Sample.fresh 20)))
                  [Sample.ok 0; Sample.rejected 0] true).
Proof.
  apply (@versions_submit_the_same
           (Sample.cacheOf Sample.bothProgram (Sample.fresh 20))
           (Sample.cacheOf Sample.bothProgram (Sample.fresh 20))
           Sample.bothProgram Sample.bothProgram (Sample.fresh 20) (Sample.fresh 20)
           [Sample.ok 0; Sample.rejected 0] true);
    try reflexivity.
  unfold agree, sameLine. cbn. repeat constructor.
Defined.

(** C10 (as stated) fails: on a cache written by the v2 command, which holds
    [program.candyMachine] and no [program.config], the v2 file submits the two
    batches of twenty items, and the older file throws [missing program
    config] and submits nothing. *)
Lemma versions_differ_on_v2_cache :
  map indexes
      (remote (addConfigLines CliV2
                 (Some (Sample.cacheOf Sample.v2Program (Sample.fresh 20)))
                 [Sample.ok 0; Sample.ok 0] true))
  = [seq 0 10; seq 10 10]
  /\ remote (addConfigLines CliV1
               (Some (Sample.cacheOf Sample.v2Program (Sample.fresh 20)))
               [Sample.ok 0; Sample.ok 0] true)
     = []
  /\ outcome (addConfigLines CliV1
                (Some (Sample.cacheOf Sample.v2Program (Sample.fresh 20)))
                [Sample.ok 0; Sample.ok 0] true)
     = Threw (Error "missing program config").
Proof. repeat split. Qed.

End VersionFacts.

(** ** A [saveCache] that fails *)

Module SaveFacts.
Import Js Batcher Cache Sync JsFacts BatcherFacts CacheFacts StepFacts ItemFacts RunFacts.
Import CommandFacts IdempotenceTheorem ReportFacts.

Section Loop.

Variable v : version.
Variable keys : list string.
Variable loaded : CacheContent.

(** The items, the tasks and the calls are the same. *)
Definition sameWork (st1 st2 : state) : Prop :=
  cacheItems st1 = cacheItems st2 /\ tasks st1 = tasks st2 /\ calls st1 = calls st2.

(** Whether the save after a fulfilled call works changes neither the items
    in memory nor what is submitted next. *)
Lemma sameWork_resume d st1 st2 :
  sameWork st1 st2 ->
  sameWork (resume v keys loaded d st1) (resume v keys loaded (savesWork d) st2).
Proof.
  intros (I & T & C). unfold resume, savesWork. cbn [who rpcOk]. rewrite <- T, <- I, <- C.
  destruct (nth_error (tasks st1) (who d)) as [[batch rest|]|];
    try (repeat split; assumption).
  destruct (advance keys _ rest) as [t issued]. repeat split.
Qed.

Lemma sameWork_exec ds st1 st2 :
  sameWork st1 st2 ->
  sameWork (exec v keys loaded ds st1) (exec v keys loaded (map savesWork ds) st2).
Proof.
  revert st1 st2. induction ds as [|d ds IH]; intros st1 st2 H; [exact H|].
  cbn [exec fold_left map]. apply IH. now apply sameWork_resume.
Qed.

End Loop.

(** C7 (as amended): of the saves of a run only the last one, in the [finally]
    block, is fatal: when it fails the error leaves [addConfigLines] and no
    [Done] line is printed.  A [saveCache] that fails right after a fulfilled
    call is caught by the [catch] block of the batch like a rejected call: the
    run reports [Successful = false] in the end, and it goes on, with the same
    items in memory and the same calls as if the save had worked. *)
Theorem save_failure_handling v c p o schedule :
  program c = Some p -> truthyString (handle v p) = true -> items c = Some o ->
  (forall successful,
      outcome (addConfigLines v (Some c) schedule false) <> Done successful)
  /\ (forall successful,
        outcome (addConfigLines v (Some c) schedule true) = Done successful ->
        outcome (addConfigLines v (Some c) schedule false) = Threw IOError)
  /\ (forall batch successful,
        In (batch, SaveFailed) (ledger (addConfigLines v (Some c) schedule true)) ->
        outcome (addConfigLines v (Some c) schedule true) = Done successful ->
        successful = false)
  /\ (forall finalSaveOk,
        remote (addConfigLines v (Some c) schedule finalSaveOk)
        = remote (addConfigLines v (Some c) (map savesWork schedule) finalSaveOk)
        /\ memory (addConfigLines v (Some c) schedule finalSaveOk)
           = memory (addConfigLines v (Some c) (map savesWork schedule) finalSaveOk)
        /\ (outcome (addConfigLines v (Some c) schedule finalSaveOk) = InFlight
            <-> outcome (addConfigLines v (Some c) (map savesWork schedule) finalSaveOk)
                = InFlight)).
Proof.
  intros Hp Hh Ho. pose proof (ready_intro v c Hp Hh Ho) as Hr.
  split; [|split; [|split]].
  - intros successful. rewrite (command_ready schedule false Hr). cbn.
    destruct (allFinished _); discriminate.
  - intros successful. rewrite !(command_ready schedule _ Hr). cbn.
    destruct (allFinished _); [reflexivity|discriminate].
  - intros batch successful Hb Hdone.
    rewrite (done_flag v (Some c) schedule Hdone).
    apply Nat.eqb_neq. pose proof (failedBatches_In _ _ _ Hb eq_refl). lia.
  - intros fs. rewrite !(command_ready _ fs Hr). cbn.
    destruct (@sameWork_exec v (keysOf o) c schedule
                (initial (keysOf o) c o) (initial (keysOf o) c o))
      as (I & T & C); [repeat split|].
    unfold allFinished. rewrite I, T, C.
    split; [reflexivity|]. split; [reflexivity|].
    destruct (forallb isFinished _), fs; split; intros H;
      try discriminate H; reflexivity.
Qed.

Lemma save_failure_handling_witness :
  (forall successful,
      outcome (addConfigLines CliV2
                 (Some (Sample.cacheOf Sample.v2Program (Sample.fresh 20)))
                 [Sample.saveFails 0; Sample.ok 0] false) <> Done successful)
  /\ (forall successful,
        outcome (addConfigLines CliV2
                   (Some (Sample.cacheOf Sample.v2Program (Sample.fresh 20)))
                   [Sample.saveFails 0; Sample.ok 0] true) = Done successful ->
        outcome (addConfigLines CliV2
                   (Some (Sample.cacheOf Sample.v2Program (Sample.fresh 20)))
                   [Sample.saveFails 0; Sample.ok 0] false) = Threw IOError)
  /\ (forall batch successful,
        In (batch, SaveFailed)
           (ledger (addConfigLines CliV2
                      (Some (Sample.cacheOf Sample.v2Program (Sample.fresh 20)))
                      [Sample.saveFails 0; Sample.ok 0] true)) ->
        outcome (addConfigLines CliV2
                   (Some (Sample.cacheOf Sample.v2Program (Sample.fresh 20)))
                   [Sample.saveFails 0; Sample.ok 0] true) = Done successful ->
        successful = false)
  /\ (forall finalSaveOk,
        remote (addConfigLines CliV2
                  (Some (Sample.cacheOf Sample.v2Program (Sample.fresh 20)))
                  [Sample.saveFails 0; Sample.ok 0] finalSaveOk)
        = remote (addConfigLines CliV2
                    (Some (Sample.cacheOf Sample.v2Program (Sample.fresh 20)))
                    (map savesWork [Sample.saveFails 0; Sample.ok 0]) finalSaveOk)
        /\ memory (addConfigLines CliV2
                     (Some (Sample.cacheOf Sample.v2Program (Sample.fresh 20)))
                     [Sample.saveFails 0; Sample.ok 0] finalSaveOk)
           = memory (addConfigLines CliV2
                       (Some (Sample.cacheOf Sample.v2Program (Sample.fresh 20)))
                       (map savesWork [Sample.saveFails 0; Sample.ok 0]) finalSaveOk)
        /\ (outcome (addConfigLines CliV2
                       (Some (Sample.cacheOf Sample.v2Program (Sample.fresh 20)))
                       [Sample.saveFails 0; Sample.ok 0] finalSaveOk) = InFlight
            <-> outcome (addConfigLines CliV2
                           (Some (Sample.cacheOf Sample.v2Program (Sample.fresh 20)))
                           (map savesWork [Sample.saveFails 0; Sample.ok 0])
                           finalSaveOk)
                = InFlight)).
Proof.
  apply (@save_failure_handling CliV2
           (Sample.cacheOf Sample.v2Program (Sample.fresh 20)) Sample.v2Program
           (Sample.fresh 20) [Sample.saveFails 0; Sample.ok 0]);
    reflexivity.
Defined.

(** C7 (as stated) fails: the save after the first of two fulfilled calls
    fails; the run neither stops nor throws: the second batch is submitted and
    committed, and the run ends with the report [Done. Successful = false], the
    failed save counted as a failed batch. *)
Lemma failed_save_is_a_batch_failure :
  outcome (addConfigLines CliV2
             (Some (Sample.cacheOf Sample.v2Program (Sample.fresh 20)))
             [Sample.saveFails 0; Sample.ok 0] true)
  = Done false
  /\ ledger (addConfigLines CliV2
               (Some (Sample.cacheOf Sample.v2Program (Sample.fresh 20)))
               [Sample.saveFails 0; Sample.ok 0] true)
     = [(seq 0 10, SaveFailed); (seq 10 10, Committed)]
  /\ map indexes
         (remote (addConfigLines CliV2
                    (Some (Sample.cacheOf Sample.v2Program (Sample.fresh 20)))
                    [Sample.saveFails 0; Sample.ok 0] true))
     = [seq 0 10; seq 10 10].
Proof. repeat split. Qed.

End SaveFacts.

(** ** The guards of the creation command *)

Module CreateFacts.
Import Js Batcher Cache Sync Create.

(** A cache that holds a [program] is refused before anything is called or
    written. *)
Lemma create_refuses_second_creation v c p w :
  program c = Some p ->
  create_candy_machine v (Some c) w
  = {| ended := Threw (Error "a program existed previously. clear it our first if you intent to create a new candy machine");
       file := Some c; remoteCalls := [] |}.
Proof. intros H. unfold create_candy_machine, loadCache. now rewrite H. Qed.

(** So is a cache whose [items] object has no key. *)
Lemma create_refuses_empty_items v c w :
  program c = None -> items c = Some [] ->
  create_candy_machine v (Some c) w
  = {| ended := Threw (Error "no items in cacheContent");
       file := Some c; remoteCalls := [] |}.
Proof. intros H1 H2. unfold create_candy_machine, loadCache. now rewrite H1, H2. Qed.

(** C6, where the code departs from it: when there is no cache file, or the
    cache has no [items] property at all, [Object.keys(items)] runs before the
    test [!items] and throws a [TypeError]; the command does stop before any
    remote call and leaves the file as it was, but not with the error
    [no items in cacheContent] that the test was written to raise. *)
Theorem create_without_items_is_a_TypeError v w who :
  create_candy_machine v None w
  = {| ended := Threw TypeError; file := None; remoteCalls := [] |}
  /\ create_candy_machine v
       (Some {| program := None; authority := who; items := None |}) w
     = {| ended := Threw TypeError;
          file := Some {| program := None; authority := who; items := None |};
          remoteCalls := [] |}.
Proof. split; reflexivity. Qed.

End CreateFacts.

(** ** The shape of the inner batches of any slice *)

Module BatchShape.
Import Js Batcher JsFacts BatcherFacts.

Lemma forOffsets_nonempty {A : Type} (l : list A) fuel offset b bs :
  forOffsets fuel offset l = b :: bs -> offset < length l.
Proof.
  destruct fuel as [|fuel]; cbn [forOffsets]; [discriminate|].
  destruct (Nat.ltb_spec offset (length l)); [auto|discriminate].
Qed.

Lemma forOffsets_full {A : Type} (l : list A) fuel offset :
  Forall (fun b => length b = 10) (removelast (forOffsets fuel offset l)).
Proof.
  revert offset. induction fuel as [|fuel IH]; intros offset; [constructor|].
  cbn [forOffsets]. destruct (Nat.ltb_spec offset (length l)) as [Hlt|Hge];
    [|constructor].
  destruct (forOffsets fuel (offset + 10) l) as [|b bs] eqn:E.
  - constructor.
  - change (removelast (slice l offset (offset + 10) :: b :: bs))
      with (slice l offset (offset + 10) :: removelast (b :: bs)).
    constructor.
    + apply forOffsets_nonempty in E. rewrite slice_length. lia.
    + rewrite <- E. apply IH.
Qed.

Lemma forOffsets_count {A : Type} (l : list A) fuel offset :
  length l - offset <= fuel ->
  length (forOffsets fuel offset l) = (length l - offset + 9) / 10.
Proof.
  revert offset. induction fuel as [|fuel IH]; intros offset Hf.
  - cbn [forOffsets length]. replace (length l - offset) with 0 by lia. reflexivity.
  - cbn [forOffsets]. destruct (Nat.ltb_spec offset (length l)) as [Hlt|Hge].
    + cbn [length]. rewrite IH by lia.
      destruct (Nat.le_gt_cases (offset + 10) (length l)) as [Hfull|Hlast].
      * replace (length l - offset + 9)
          with (length l - (offset + 10) + 9 + 1 * 10) by lia.
        rewrite Nat.div_add by lia. lia.
      * replace (length l - (offset + 10)) with 0 by lia.
        assert (E : (length l - offset + 9) / 10 = 1).
        { symmetry. apply Nat.div_unique with (r := length l - offset - 1); lia. }
        rewrite E. reflexivity.
    + cbn [length]. replace (length l - offset) with 0 by lia. reflexivity.
Qed.

(** The inner loop cuts any slice, whatever it holds, into [ceil (length / 10)]
    batches, in order; all of them but the last hold exactly ten elements, the
    last between one and ten; an empty slice gives no batch. *)
Theorem innerBatches_shape {A : Type} (l : list A) :
  length (innerBatches l) = (length l + 9) / 10
  /\ Forall (fun b => length b = 10) (removelast (innerBatches l))
  /\ Forall (fun b => 0 < length b <= 10) (innerBatches l)
  /\ concat (innerBatches l) = l
  /\ (innerBatches l = [] <-> l = []).
Proof.
  split; [|split; [|split; [|split]]].
  - unfold innerBatches. rewrite forOffsets_count by lia. now rewrite Nat.sub_0_r.
  - apply forOffsets_full.
  - apply innerBatches_length.
  - apply innerBatches_concat.
  - split; intros H.
    + rewrite <- (innerBatches_concat l), H. reflexivity.
    + subst l. reflexivity.
Qed.

End BatchShape.

(** ** The calls of a run *)

Module CallFacts.
Import Js Batcher Cache Sync JsFacts BatcherFacts CacheFacts StepFacts ItemFacts RunFacts.
Import CommandFacts IdempotenceFacts IdempotenceTheorem ReportFacts FailureFacts.

(** The batch a task waits for. *)
Definition awaited (t : task) : list (list nat) :=
  match t with Awaiting b _ => [b] | Finished => [] end.

Definition awaitedBatches (ts : list task) : list (list nat) :=
  concat (map awaited ts).

(** The indices submitted so far. *)
Definition callsIdx (cs : list Call) : list nat := concat (map indexes cs).

Lemma concat_map_setNth {X : Type} (f : task -> list X) ts j t :
  nth_error ts j = Some t ->
  exists pre post,
    concat (map f ts) = pre ++ f t ++ post
    /\ forall t', concat (map f (setNth j t' ts)) = pre ++ f t' ++ post.
Proof.
  revert j. induction ts as [|t0 ts IH]; intros j Hj.
  - destruct j; discriminate.
  - destruct j as [|j]; cbn [nth_error] in Hj.
    + injection Hj as ->. exists [], (concat (map f ts)).
      split; [reflexivity|]. intros t'. reflexivity.
    + destruct (IH j Hj) as (pre & post & E & E').
      exists (f t0 ++ pre), post. cbn [map concat setNth]. split.
      * rewrite E. now rewrite <- app_assoc.
      * intros t'. rewrite E'. now rewrite <- app_assoc.
Qed.

Lemma length_setNth {A : Type} (l : list A) n x : length (setNth n x l) = length l.
Proof.
  revert n. induction l as [|y l IH]; intros [|n]; cbn [setNth length]; auto.
Qed.

Lemma awaited_in_pending i ts :
  occ i (concat (awaitedBatches ts)) <= occ i (concat (pendingBatches ts)).
Proof.
  unfold awaitedBatches, pendingBatches. induction ts as [|t ts IH]; [reflexivity|].
  cbn [map concat]. rewrite !concat_app, !occ_app.
  destruct t as [b r|]; cbn [awaited taskBatches concat]; [|lia].
  rewrite app_nil_r, occ_app. lia.
Qed.

Lemma awaitedBatches_length ts : length (awaitedBatches ts) <= length ts.
Proof.
  unfold awaitedBatches. induction ts as [|t ts IH]; [reflexivity|].
  cbn [map concat]. rewrite length_app. destruct t; cbn; lia.
Qed.

Lemma finished_awaited ts : forallb isFinished ts = true -> awaitedBatches ts = [].
Proof.
  unfold awaitedBatches. induction ts as [|t ts IH]; [reflexivity|].
  cbn [forallb map concat]. intros H. apply andb_prop in H. destruct H as [Ht Hts].
  destruct t; [discriminate|]. cbn. auto.
Qed.

Section Loop.

Variable v : version.
Variable keys : list string.
Variable loaded : CacheContent.
Variable o : Items.

(** The config lines are read from [name] and [link], which the loop never
    assigns to. *)
Lemma callFor_evolves o' batch :
  (forall k, optRel (evolves v) (get o k) (get o' k)) ->
  callFor keys o' batch = callFor keys o batch.
Proof.
  intros H. unfold callFor. f_equal. apply map_ext. intros i.
  pose proof (@itemAt_evolves v keys o o' i H) as R. unfold configLine.
  destruct (itemAt keys o i), (itemAt keys o' i); cbn in R; try contradiction;
    [|reflexivity].
  destruct R as (-> & -> & _). reflexivity.
Qed.

Lemma advance_issued oo iterations t issued :
  advance keys oo iterations = (t, issued) ->
  map indexes issued = awaited t /\ length issued = length (awaited t).
Proof.
  intros H. destruct (advance_spec _ _ _ H) as (skipped & _ & _ & Hcase).
  destruct Hcase as [[-> ->]|(b & r & -> & -> & _)]; split; reflexivity.
Qed.

Lemma startAll_issued oo slices ts issued :
  startAll keys oo slices = (ts, issued) ->
  map indexes issued = awaitedBatches ts
  /\ length issued = length (awaitedBatches ts)
  /\ length ts = length slices.
Proof.
  unfold awaitedBatches.
  revert ts issued. induction slices as [|iterations more IH]; intros ts issued.
  - cbn [startAll]. intros [= <- <-]. repeat split.
  - cbn [startAll].
    destruct (advance keys oo iterations) as [t is1] eqn:Ea.
    destruct (startAll keys oo more) as [ts' is2] eqn:Es.
    intros [= <- <-]. destruct (IH _ _ eq_refl) as (I1 & I2 & I3).
    destruct (advance_issued _ _ Ea) as [A1 A2].
    cbn [map concat length]. rewrite map_app, !length_app, A1, A2, I1, I2, I3.
    repeat split.
Qed.

(** Every call is the call for a batch of the partition, built from the
    loaded items. *)
Definition fromPartition (st : state) : Prop :=
  (forall k, optRel (evolves v) (get o k) (get (cacheItems st) k))
  /\ forall call, In call (calls st) ->
       exists b, In b (concat (partition (length keys))) /\ call = callFor keys o b.

Lemma fromPartition_exec ds : fromPartition (exec v keys loaded ds (initial keys loaded o)).
Proof.
  assert (H : wellFormed keys o (exec v keys loaded ds (initial keys loaded o))
              /\ fromPartition (exec v keys loaded ds (initial keys loaded o))).
  { apply (exec_invariant v keys loaded (fun s => wellFormed keys o s /\ fromPartition s)).
    - intros d st [W [E C]].
      pose proof (wellFormed_resume v loaded d W) as W'. split; [exact W'|].
      assert (E' : forall k, optRel (evolves v) (get o k)
                               (get (cacheItems (resume v keys loaded d st)) k)).
      { intros k. eapply optRel_trans; [apply evolves_trans|apply E|apply get_resume]. }
      split; [exact E'|].
      destruct W' as (_ & P' & _).
      destruct (step_view v keys loaded d st)
        as [->|batch skipped t issued pre post _ _ _ Hp' _ _ Hcase _ _ Hcalls _];
        [exact C|].
      intros call Hc. rewrite Hcalls in Hc. apply in_app_or in Hc.
      destruct Hc as [Hc|Hc]; [now apply C|].
      destruct Hcase as [[_ ->]|(b & r & -> & -> & _)]; [contradiction|].
      destruct Hc as [<-|[]]. exists b. split.
      + apply P'. rewrite Hp'. apply in_or_app. right. apply in_or_app. left. now left.
      + now apply callFor_evolves.
    - split; [apply wellFormed_initial|].
      destruct (initial_fields keys loaded o) as (ts & issued & Hs & ->).
      destruct (startAll_spec _ _ _ Hs) as (_ & _ & _ & _ & I5).
      split; cbn.
      + intros k. apply optRel_refl, evolves_refl.
      + intros call Hc. destruct (I5 _ Hc) as (b & -> & Hb & _). eauto. }
  apply H.
Qed.

(** The books of a run: no index is in two batches in play; the indices
    submitted are those of the settled and of the awaited batches; and so are
    the numbers of calls. *)
Definition accounted (st : state) : Prop :=
  (forall i, occ i (concat (pendingBatches (tasks st)))
             + occ i (settledIdx (settled st)) <= 1)
  /\ (forall i, occ i (callsIdx (calls st))
                = occ i (settledIdx (settled st))
                  + occ i (concat (awaitedBatches (tasks st))))
  /\ length (calls st) = length (settled st) + length (awaitedBatches (tasks st))
  /\ length (tasks st) = length (partition (length keys)).

Lemma accounted_initial : accounted (initial keys loaded o).
Proof.
  destruct (initial_fields keys loaded o) as (ts & issued & Hs & ->).
  destruct (startAll_spec _ _ _ Hs) as (_ & _ & I3 & _).
  destruct (startAll_issued _ _ Hs) as (J1 & J2 & J3).
  unfold accounted, callsIdx. cbn [tasks settled calls]. rewrite J1, J2, J3.
  change (settledIdx []) with (@nil nat).
  split; [|repeat split].
  intros i. specialize (I3 i). rewrite partition_concat in I3.
  pose proof (occ_seq i 0 (length keys)). change (occ i []) with 0. lia.
Qed.

Lemma accounted_resume d st : accounted st -> accounted (resume v keys loaded d st).
Proof.
  intros (D & C & L & T).
  destruct (resume_view v keys loaded d st)
    as [->|batch rest t issued Hn Hc Ha Hd Hf Ht Hcalls Hs]; [now repeat split|].
  destruct (advance_spec _ _ _ Ha) as (skipped & -> & _ & _).
  destruct (advance_issued _ _ Ha) as [A1 A2].
  destruct (pendingBatches_setNth _ _ Hn) as (pre & post & Ep & Ep').
  destruct (concat_map_setNth awaited _ _ Hn) as (preA & postA & Ea & Ea').
  fold (awaitedBatches (tasks st)) in Ea.
  unfold accounted, callsIdx in *.
  rewrite Ht, Hcalls, Hs. unfold awaitedBatches at 1 2. rewrite Ea', Ep'.
  rewrite settledIdx_snoc, map_app, A1, length_setNth.
  split; [|split; [|split]].
  - intros i. specialize (D i). rewrite Ep in D. cbn [taskBatches] in D.
    rewrite !concat_app, !occ_app in *. cbn [concat] in D.
    rewrite !concat_app, !occ_app in D. lia.
  - intros i. specialize (C i). rewrite Ea in C. cbn [awaited] in C.
    rewrite !concat_app, !occ_app in *. cbn [concat] in C.
    rewrite app_nil_r in C. lia.
  - rewrite Ea in L. cbn [awaited] in L. rewrite !length_app in *. cbn [length] in *. lia.
  - exact T.
Qed.

Lemma accounted_exec ds : accounted (exec v keys loaded ds (initial keys loaded o)).
Proof. apply exec_invariant; [apply accounted_resume|apply accounted_initial]. Qed.

(** A settled batch was called; an awaited batch was called; a called
    batch is settled or awaited. *)
Definition booked (st : state) : Prop :=
  (forall b how, In (b, how) (settled st) -> In b (map indexes (calls st)))
  /\ (forall b, In b (awaitedBatches (tasks st)) -> In b (map indexes (calls st)))
  /\ (forall b, In b (map indexes (calls st)) ->
        (exists how, In (b, how) (settled st)) \/ In b (awaitedBatches (tasks st))).

Lemma booked_initial : booked (initial keys loaded o).
Proof.
  destruct (initial_fields keys loaded o) as (ts & issued & Hs & ->).
  destruct (startAll_issued _ _ Hs) as (J1 & _).
  unfold booked. cbn [tasks settled calls]. rewrite J1. repeat split; auto.
  intros b how [].
Qed.

Lemma booked_resume d st : booked st -> booked (resume v keys loaded d st).
Proof.
  intros (S & A & C).
  destruct (resume_view v keys loaded d st)
    as [->|batch rest t issued Hn Hc Ha Hd Hf Ht Hcalls Hs]; [now repeat split|].
  destruct (advance_issued _ _ Ha) as [A1 _].
  destruct (concat_map_setNth awaited _ _ Hn) as (preA & postA & Ea & Ea').
  fold (awaitedBatches (tasks st)) in Ea.
  unfold booked.
  rewrite Ht, Hcalls, Hs. unfold awaitedBatches at 1 2. rewrite Ea', map_app, A1.
  rewrite Ea in A, C. cbn [awaited] in A, C.
  split; [|split].
  - intros b how Hb. apply in_or_app. left. apply in_app_or in Hb.
    destruct Hb as [Hb|[[= <- <-]|[]]]; [eauto|].
    apply A. rewrite !in_app_iff. cbn. auto.
  - intros b Hb. rewrite !in_app_iff in *. destruct Hb as [Hb|[Hb|Hb]]; auto.
    + left. apply A. rewrite !in_app_iff. auto.
    + left. apply A. rewrite !in_app_iff. auto.
  - intros b Hb. rewrite !in_app_iff in *. destruct Hb as [Hb|Hb]; [|auto].
    destruct (C b Hb) as [(how & Hh)|Hw].
    + left. exists how. rewrite in_app_iff. auto.
    + rewrite !in_app_iff in Hw. cbn [In] in Hw.
      destruct Hw as [Hw|[[<-|[]]|Hw]]; auto.
      left. exists (settleOf d). rewrite in_app_iff. right. now left.
Qed.

Lemma booked_exec ds : booked (exec v keys loaded ds (initial keys loaded o)).
Proof. apply exec_invariant; [apply booked_resume|apply booked_initial]. Qed.

End Loop.

End CallFacts.

(** ** Runs used as examples *)

Module Scenario.
Import Js Batcher Cache Sync Create Sample.

(** Twenty items, none on chain, in a cache of the v2 command. *)
Definition twenty : CacheContent := cacheOf v2Program (fresh 20).

(** The first call is fulfilled, the second rejected. *)
Definition mixed : list decision := [ok 0; rejected 0].

(** The first call is fulfilled but its save fails, the second is fulfilled. *)
Definition unsaved : list decision := [saveFails 0; ok 0].

(** Only the first call has returned. *)
Definition halfway : list decision := [ok 0].

Definition bothOk : list decision := [ok 0; ok 0].

End Scenario.

Module CallTheorems.
Import Js Batcher Cache Sync JsFacts BatcherFacts CacheFacts StepFacts ItemFacts RunFacts.
Import CommandFacts IdempotenceFacts IdempotenceTheorem ReportFacts FailureFacts.
Import FailureTheorem CallFacts.

Lemma length_keysOf (o : Items) : length (keysOf o) = length o.
Proof. unfold keysOf. apply length_map. Qed.

Lemma partition_batch_shape n b :
  In b (concat (partition n)) ->
  exists a m, b = seq a m /\ 1 <= m <= 10 /\ a + m <= n.
Proof.
  intros Hb. pose proof (partition_batches n) as H.
  apply in_concat in Hb. destruct Hb as (chunk & Hc & Hb).
  rewrite Forall_forall in H. specialize (H _ Hc).
  rewrite Forall_forall in H. destruct (H _ Hb) as (Hlen & a & E).
  exists a, (length b). split; [exact E|]. split; [lia|].
  assert (Hin : In (a + (length b - 1)) b).
  { rewrite E at 2. apply in_seq. lia. }
  pose proof (@partition_range n b _ (proj2 (in_concat _ _) (ex_intro _ chunk (conj Hc Hb))) Hin).
  lia.
Qed.

(** Every call a run makes is for one inner batch of the partition: a run of
    at least one and at most ten consecutive indices below the number of items;
    its start key is the key of the first of them, which the cache has; and
    its config lines are, in index order, the link and the name the items had
    when the cache was loaded. *)
Theorem calls_are_well_formed v c p o schedule finalSaveOk call :
  program c = Some p -> truthyString (handle v p) = true -> items c = Some o ->
  In call (remote (addConfigLines v (Some c) schedule finalSaveOk)) ->
  exists a m,
    indexes call = seq a m /\ 1 <= m <= 10 /\ a + m <= length o
    /\ (exists k, ind call = Some k /\ nth_error (keysOf o) a = Some k)
    /\ length (configs call) = m
    /\ Forall2 (fun i line =>
                  exists it, itemAt (keysOf o) o i = Some it
                             /\ line = (link it, name it))
               (indexes call) (configs call).
Proof.
  intros Hp Hh Ho Hc. pose proof (ready_intro v c Hp Hh Ho) as Hr.
  rewrite (command_ready schedule finalSaveOk Hr) in Hc. cbn in Hc.
  destruct (@fromPartition_exec v (keysOf o) c o schedule) as [_ C].
  destruct (C _ Hc) as (b & Hb & ->).
  destruct (partition_batch_shape _ _ Hb) as (a & m & -> & Hm & Ham).
  rewrite length_keysOf in Ham.
  exists a, m. unfold callFor. cbn [indexes ind configs].
  split; [reflexivity|]. split; [exact Hm|].
  split; [exact Ham|]. split; [|split].
  - destruct m as [|m]; [lia|]. cbn [seq].
    destruct (nth_error (keysOf o) a) as [k|] eqn:E; [eauto|].
    apply nth_error_None in E. rewrite length_keysOf in E. lia.
  - now rewrite length_map, length_seq.
  - assert (Hall : forall i, In i (seq a m) -> i < length (keysOf o)).
    { intros i Hi. apply in_seq in Hi. rewrite length_keysOf. lia. }
    revert Hall. generalize (seq a m) as l.
    induction l as [|i l IH]; intros Hall; cbn [map]; constructor.
    + destruct (@itemAt_range (keysOf o) o i eq_refl (Hall i (or_introl eq_refl)))
        as (it & E).
      exists it. split; [exact E|]. unfold configLine. now rewrite E.
    + apply IH. intros j Hj. apply Hall. now right.
Qed.

Lemma calls_are_well_formed_witness :
  exists a m,
    indexes (callFor (keysOf (Sample.fresh 20)) (Sample.fresh 20) (seq 0 10)) = seq a m
    /\ 1 <= m <= 10 /\ a + m <= length (Sample.fresh 20)
    /\ (exists k,
           ind (callFor (keysOf (Sample.fresh 20)) (Sample.fresh 20) (seq 0 10)) = Some k
           /\ nth_error (keysOf (Sample.fresh 20)) a = Some k)
    /\ length (configs (callFor (keysOf (Sample.fresh 20)) (Sample.fresh 20) (seq 0 10)))
       = m
    /\ Forall2 (fun i line =>
                  exists it, itemAt (keysOf (Sample.fresh 20)) (Sample.fresh 20) i = Some it
                             /\ line = (link it, name it))
               (indexes (callFor (keysOf (Sample.fresh 20)) (Sample.fresh 20) (seq 0 10)))
               (configs (callFor (keysOf (Sample.fresh 20)) (Sample.fresh 20) (seq 0 10))).
Proof.
  apply (@calls_are_well_formed CliV2 Scenario.twenty Sample.v2Program (Sample.fresh 20)
           Scenario.mixed true
           (callFor (keysOf (Sample.fresh 20)) (Sample.fresh 20) (seq 0 10)));
    try reflexivity.
  left. reflexivity.
Defined.

(** No index is submitted twice in one run, whatever the calls return and in
    whatever order: a batch whose call was rejected is not tried again, and the
    batches of different tasks do not overlap. *)
Theorem no_index_submitted_twice v c p o schedule finalSaveOk :
  program c = Some p -> truthyString (handle v p) = true -> items c = Some o ->
  NoDup (concat (map indexes (remote (addConfigLines v (Some c) schedule finalSaveOk)))).
Proof.
  intros Hp Hh Ho. pose proof (ready_intro v c Hp Hh Ho) as Hr.
  rewrite (command_ready schedule finalSaveOk Hr). cbn [remote].
  apply (NoDup_count_occ Nat.eq_dec). intros i.
  destruct (@accounted_exec v (keysOf o) c o schedule) as (D & C & _).
  specialize (D i). specialize (C i). unfold callsIdx, occ in *.
  pose proof (awaited_in_pending i
                (tasks (exec v (keysOf o) c schedule (initial (keysOf o) c o)))) as A.
  unfold occ in A. lia.
Qed.

Lemma no_index_submitted_twice_witness :
  NoDup (concat (map indexes
                   (remote (addConfigLines CliV2 (Some Scenario.twenty)
                              Scenario.mixed true)))).
Proof.
  apply (@no_index_submitted_twice CliV2 Scenario.twenty Sample.v2Program
           (Sample.fresh 20) Scenario.mixed true); reflexivity.
Defined.

(** The calls of a run and their returns add up: every settled batch was
    submitted; at any moment the calls that have not returned are at most one
    per outer chunk; and when the run has ended every call has returned, so
    the calls made are as many as the batches that succeeded and failed. *)
Theorem calls_and_returns_add_up v c p o schedule finalSaveOk :
  program c = Some p -> truthyString (handle v p) = true -> items c = Some o ->
  length (ledger (addConfigLines v (Some c) schedule finalSaveOk))
  <= length (remote (addConfigLines v (Some c) schedule finalSaveOk))
  <= length (ledger (addConfigLines v (Some c) schedule finalSaveOk))
     + length (partition (length o))
  /\ (forall b how,
        In (b, how) (ledger (addConfigLines v (Some c) schedule finalSaveOk)) ->
        In b (map indexes (remote (addConfigLines v (Some c) schedule finalSaveOk))))
  /\ (outcome (addConfigLines v (Some c) schedule finalSaveOk) <> InFlight ->
      length (remote (addConfigLines v (Some c) schedule finalSaveOk))
      = succeededBatches (ledger (addConfigLines v (Some c) schedule finalSaveOk))
        + failedBatches (ledger (addConfigLines v (Some c) schedule finalSaveOk))
      /\ forall call,
           In call (remote (addConfigLines v (Some c) schedule finalSaveOk)) ->
           exists how,
             In (indexes call, how)
                (ledger (addConfigLines v (Some c) schedule finalSaveOk))).
Proof.
  intros Hp Hh Ho. pose proof (ready_intro v c Hp Hh Ho) as Hr.
  rewrite (command_ready schedule finalSaveOk Hr). cbn [remote ledger outcome].
  set (st := exec v (keysOf o) c schedule (initial (keysOf o) c o)).
  destruct (@accounted_exec v (keysOf o) c o schedule) as (_ & _ & L & T).
  destruct (@booked_exec v (keysOf o) c o schedule) as (S & _ & C).
  fold st in L, T, S, C. rewrite length_keysOf in T.
  pose proof (awaitedBatches_length (tasks st)) as A.
  split; [lia|]. split; [exact S|].
  intros Hend. unfold allFinished in Hend.
  destruct (forallb isFinished (tasks st)) eqn:Hfin; [|contradiction].
  rewrite (finished_awaited _ Hfin) in *. split.
  - rewrite tally_total. cbn [length] in L. lia.
  - intros call Hc. destruct (C (indexes call) (in_map indexes _ _ Hc)) as [H|[]].
    exact H.
Qed.

Lemma calls_and_returns_add_up_witness :
  length (ledger (addConfigLines CliV2 (Some Scenario.twenty) Scenario.mixed true))
  <= length (remote (addConfigLines CliV2 (Some Scenario.twenty) Scenario.mixed true))
  <= length (ledger (addConfigLines CliV2 (Some Scenario.twenty) Scenario.mixed true))
     + length (partition (length (Sample.fresh 20)))
  /\ (forall b how,
        In (b, how) (ledger (addConfigLines CliV2 (Some Scenario.twenty)
                               Scenario.mixed true)) ->
        In b (map indexes (remote (addConfigLines CliV2 (Some Scenario.twenty)
                                     Scenario.mixed true))))
  /\ (outcome (addConfigLines CliV2 (Some Scenario.twenty) Scenario.mixed true)
      <> InFlight ->
      length (remote (addConfigLines CliV2 (Some Scenario.twenty) Scenario.mixed true))
      = succeededBatches
          (ledger (addConfigLines CliV2 (Some Scenario.twenty) Scenario.mixed true))
        + failedBatches
            (ledger (addConfigLines CliV2 (Some Scenario.twenty) Scenario.mixed true))
      /\ forall call,
           In call (remote (addConfigLines CliV2 (Some Scenario.twenty)
                              Scenario.mixed true)) ->
           exists how,
             In (indexes call, how)
                (ledger (addConfigLines CliV2 (Some Scenario.twenty)
                           Scenario.mixed true))).
Proof.
  apply (@calls_and_returns_add_up CliV2 Scenario.twenty Sample.v2Program
           (Sample.fresh 20) Scenario.mixed true); reflexivity.
Defined.

Lemma submitted_iff v (o : Items) loaded ds batch :
  NoDup (keysOf o) ->
  allFinished (exec v (keysOf o) loaded ds (initial (keysOf o) loaded o)) = true ->
  (In batch (map indexes (calls (exec v (keysOf o) loaded ds
                                   (initial (keysOf o) loaded o))))
   <-> In batch (concat (partition (length (keysOf o))))
       /\ exists i, In i batch /\ isOnChain (keysOf o) o i = false).
Proof.
  intros Hnd Hend. split.
  - intros Hb. apply in_map_iff in Hb. destruct Hb as (call & <- & Hc).
    destruct (@fromPartition_exec v (keysOf o) loaded o ds) as [_ C].
    destruct (@callsNeeded_exec v (keysOf o) loaded o ds) as [_ N].
    destruct (C _ Hc) as (b & Hb & E). split; [|now apply N].
    rewrite E. exact Hb.
  - intros [Hb Hi].
    destruct (@pending_batches_submitted v (keysOf o) loaded o Hnd ds batch)
      as (call & Hc & <-); auto.
    now apply in_map.
Qed.

(** Which batches a finished run submits is fixed by the loaded cache alone:
    they are the batches of the partition that held an index not on chain,
    whatever the calls returned and in whatever order. *)
Theorem submitted_batches_fixed_by_cache v c p o schedule finalSaveOk batch :
  program c = Some p -> truthyString (handle v p) = true -> items c = Some o ->
  NoDup (keysOf o) ->
  outcome (addConfigLines v (Some c) schedule finalSaveOk) <> InFlight ->
  (In batch (map indexes (remote (addConfigLines v (Some c) schedule finalSaveOk)))
   <-> In batch (concat (partition (length o)))
       /\ exists i, In i batch /\ isOnChain (keysOf o) o i = false).
Proof.
  intros Hp Hh Ho Hnd. pose proof (ready_intro v c Hp Hh Ho) as Hr.
  rewrite (command_ready schedule finalSaveOk Hr). cbn [remote outcome].
  rewrite <- (length_keysOf o). intros Hend.
  apply submitted_iff; [exact Hnd|].
  destruct (allFinished _); [reflexivity|contradiction].
Qed.

Lemma submitted_batches_fixed_by_cache_witness :
  In (seq 10 10)
     (map indexes (remote (addConfigLines CliV2 (Some Scenario.twenty) Scenario.mixed true)))
  <-> In (seq 10 10) (concat (partition (length (Sample.fresh 20))))
      /\ exists i, In i (seq 10 10)
                   /\ isOnChain (keysOf (Sample.fresh 20)) (Sample.fresh 20) i = false.
Proof.
  apply (@submitted_batches_fixed_by_cache CliV2 Scenario.twenty Sample.v2Program
           (Sample.fresh 20) Scenario.mixed true (seq 10 10)); try reflexivity.
  - apply NoDup_by_count. vm_compute. reflexivity.
  - discriminate.
Defined.

End CallTheorems.

(** ** The items in memory and in the cache file *)

Module MemoryFacts.
Import Js Batcher Cache Sync JsFacts BatcherFacts CacheFacts StepFacts ItemFacts RunFacts.
Import CommandFacts IdempotenceFacts IdempotenceTheorem ReportFacts FailureFacts.
Import FailureTheorem VerifyRunFacts CallFacts CallTheorems.

(** The items of a cache file; a file that is not there, or has no [items],
    holds none. *)
Definition fileItems (f : option CacheContent) : Items :=
  match f with
  | Some c => match items c with Some od => od | None => [] end
  | None => []
  end.

Lemma commitMark_idem v it : commitMark v (commitMark v it) = commitMark v it.
Proof. destruct v; reflexivity. Qed.

(** Either a batch with the index had its call fulfilled, or every settled
    batch with the index was rejected. *)
Lemma fulfilled_or_not (l : list (list nat * settle)) i :
  (exists b how, In (b, how) l /\ how <> CommitFailed /\ In i b)
  \/ (forall b how, In (b, how) l -> In i b -> how = CommitFailed).
Proof.
  induction l as [|[b0 how0] l IH].
  - right. intros b how [].
  - destruct IH as [(b & how & Hb & Hh & Hi)|IH].
    + left. exists b, how. split; [now right|auto].
    + destruct (in_dec Nat.eq_dec i b0) as [Hi|Hni].
      * destruct how0.
        -- left. exists b0, Committed. split; [now left|]. split; [discriminate|exact Hi].
        -- right. intros b how [[= <- <-]|Hb] Hib; [reflexivity|eauto].
        -- left. exists b0, SaveFailed. split; [now left|]. split; [discriminate|exact Hi].
      * right. intros b how [[= <- <-]|Hb] Hib; [contradiction|eauto].
Qed.

Section Loop.

Variable v : version.
Variable keys : list string.
Variable loaded : CacheContent.
Variable o : Items.
Hypothesis keys_distinct : NoDup keys.

Lemma itemAt_markOne_same oo i :
  itemAt keys (markOne v keys oo i) i = option_map (commitMark v) (itemAt keys oo i).
Proof.
  unfold itemAt, markOne. destruct (nth_error keys i) as [k|]; [|reflexivity].
  apply get_alter_same.
Qed.

(** The [forEach] stamps every item of its batch once. *)
Lemma itemAt_markAll_in batch oo i :
  In i batch ->
  itemAt keys (markAll v keys batch oo) i = option_map (commitMark v) (itemAt keys oo i).
Proof.
  revert oo. induction batch as [|j batch IH]; intros oo Hin; [contradiction|].
  change (markAll v keys (j :: batch) oo) with (markAll v keys batch (markOne v keys oo j)).
  destruct (in_dec Nat.eq_dec i batch) as [Hi|Hni].
  - rewrite IH by assumption.
    destruct (Nat.eq_dec i j) as [->|Hne].
    + rewrite itemAt_markOne_same. destruct (itemAt keys oo j); cbn; [|reflexivity].
      now rewrite commitMark_idem.
    + now rewrite (@itemAt_markOne_other v keys keys_distinct oo i j Hne).
  - rewrite (@itemAt_markAll_other v keys keys_distinct batch _ i Hni).
    destruct Hin as [->|Hin]; [|contradiction]. apply itemAt_markOne_same.
Qed.

(** An item of a batch whose call was fulfilled is the loaded item, stamped. *)
Definition stamped (st : state) : Prop :=
  forall i,
    (exists b how, In (b, how) (settled st) /\ how <> CommitFailed /\ In i b) ->
    itemAt keys (cacheItems st) i = option_map (commitMark v) (itemAt keys o i).

Lemma stamped_resume d st :
  isolated keys o st -> stamped st -> stamped (resume v keys loaded d st).
Proof.
  intros (D & U & _ & _) S.
  destruct (step_view v keys loaded d st)
    as [->|batch skipped t issued pre post Hc Hin Hp Hp' Ht Hall Hcase Hd Hf Hcalls Hs];
    [exact S|].
  assert (Hbatch : forall i, In i batch -> occ i (settledIdx (settled st)) = 0).
  { intros i Hi. specialize (D i). rewrite Hp in D.
    rewrite !concat_app, !occ_app in D. cbn [concat] in D. rewrite occ_app in D.
    apply occ_In in Hi. lia. }
  intros i (b & how & Hb & Hhow & Hi). rewrite Hc, Hs in *.
  apply in_app_or in Hb. destruct Hb as [Hb|[[= <- <-]|[]]].
  - assert (Hold : itemAt keys (cacheItems st) i
                   = option_map (commitMark v) (itemAt keys o i)) by (apply S; eauto).
    destruct (rpcOk d); [|exact Hold].
    rewrite (@itemAt_markAll_other v keys keys_distinct batch _ i); [exact Hold|].
    intros Hib. pose proof (Hbatch _ Hib) as Z.
    pose proof (occ_settled i _ _ _ Hb) as Z'. apply occ_In in Hi. lia.
  - assert (Hrpc : rpcOk d = true).
    { unfold settleOf in Hhow. destruct (rpcOk d); [reflexivity|congruence]. }
    rewrite Hrpc, itemAt_markAll_in by assumption. f_equal.
    apply U. intros b0 how0 Hb0 Hi0. exfalso.
    pose proof (Hbatch _ Hi) as Z. pose proof (occ_settled i _ _ _ Hb0) as Z'.
    apply occ_In in Hi0. lia.
Qed.

Lemma stamped_exec ds : stamped (exec v keys loaded ds (initial keys loaded o)).
Proof.
  assert (H : isolated keys o (exec v keys loaded ds (initial keys loaded o))
              /\ stamped (exec v keys loaded ds (initial keys loaded o))).
  { apply (exec_invariant v keys loaded (fun s => isolated keys o s /\ stamped s)).
    - intros d st [I S]. split; [now apply isolated_resume|now apply stamped_resume].
    - split; [now apply isolated_initial|].
      destruct (initial_fields keys loaded o) as (ts & issued & _ & ->).
      intros i (b & how & [] & _). }
  apply H.
Qed.

End Loop.

Section File.

Variable v : version.
Variable keys : list string.
Variable loaded : CacheContent.
Variable o : Items.
Hypothesis keys_of : keys = keysOf o.
Hypothesis loaded_items : items loaded = Some o.

(** The cache file holds the loaded cache with items that lie between the
    loaded ones and those in memory. *)
Definition persisted (st : state) : Prop :=
  keysOf (cacheItems st) = keysOf o
  /\ exists od,
       disk st = Some (withItems loaded od)
       /\ keysOf od = keysOf o
       /\ (forall k, optRel (evolves v) (get o k) (get od k))
       /\ (forall k, optRel (evolves v) (get od k) (get (cacheItems st) k)).

(** The items of a batch that was committed and saved are on chain in the
    file. *)
Definition durable (st : state) : Prop :=
  forall batch i,
    In (batch, Committed) (settled st) -> In i batch ->
    isOnChain keys (fileItems (disk st)) i = true.

Lemma marked_on_chain st batch how i :
  marked v keys st -> In (batch, how) (settled st) -> how <> CommitFailed ->
  In i batch -> isOnChain keys (cacheItems st) i = true.
Proof.
  intros M Hb Hh Hi. destruct (M _ _ _ Hb Hh Hi) as (it & E & On & _).
  unfold isOnChain. now rewrite E.
Qed.

Lemma persisted_initial : persisted (initial keys loaded o).
Proof.
  destruct (initial_fields keys loaded o) as (ts & issued & _ & ->).
  split; [reflexivity|]. exists o. cbn [disk cacheItems]. split.
  - f_equal. destruct loaded as [pr au its]. cbn in loaded_items. subst its. reflexivity.
  - repeat split; intros; apply optRel_refl, evolves_refl.
Qed.

Lemma persisted_resume d st : persisted st -> persisted (resume v keys loaded d st).
Proof.
  intros (K & od & Ed & Kd & Lo & Hi).
  pose proof (get_resume v keys loaded d st) as Hev.
  assert (Hi' : forall k, optRel (evolves v) (get od k)
                            (get (cacheItems (resume v keys loaded d st)) k)).
  { intros k. eapply optRel_trans; [apply evolves_trans|apply Hi|apply Hev]. }
  destruct (resume_view v keys loaded d st)
    as [->|batch rest t issued Hn Hc Ha Hd Hf Ht Hcalls Hs];
    [split; [exact K|now exists od]|].
  assert (K' : keysOf (cacheItems (resume v keys loaded d st)) = keysOf o).
  { rewrite Hc. destruct (rpcOk d); [now rewrite keysOf_markAll|exact K]. }
  split; [exact K'|].
  destruct (rpcOk d) eqn:Hrpc; [destruct (saveOk d) eqn:Hsave|].
  - exists (cacheItems (resume v keys loaded d st)). rewrite Hd. cbn [saveCache].
    split; [reflexivity|]. split; [exact K'|]. split.
    + intros k. eapply optRel_trans; [apply evolves_trans|apply Lo|apply Hi'].
    + intros k. apply optRel_refl, evolves_refl.
  - exists od. rewrite Hd. cbn [saveCache]. auto.
  - exists od. rewrite Hd. auto.
Qed.

Lemma persisted_exec ds : persisted (exec v keys loaded ds (initial keys loaded o)).
Proof. apply exec_invariant; [apply persisted_resume|apply persisted_initial]. Qed.

Lemma durable_resume d st :
  wellFormed keys o st -> marked v keys st -> durable st ->
  durable (resume v keys loaded d st).
Proof.
  intros W M Du.
  pose proof (@marked_resume v keys loaded o keys_of d st W M) as M'.
  destruct (resume_view v keys loaded d st)
    as [->|batch rest t issued Hn Hc Ha Hd Hf Ht Hcalls Hs]; [exact Du|].
  intros b i Hb Hi. rewrite Hd.
  destruct (rpcOk d) eqn:Hrpc; [destruct (saveOk d) eqn:Hsave|].
  - cbn [saveCache fileItems withItems items].
    apply (@marked_on_chain _ b Committed i M' Hb); [discriminate|exact Hi].
  - cbn [saveCache]. rewrite Hs in Hb. apply in_app_or in Hb.
    destruct Hb as [Hb|[[= _ E]|[]]]; [now apply (Du b)|].
    unfold settleOf in E. rewrite Hrpc, Hsave in E. discriminate.
  - rewrite Hs in Hb. apply in_app_or in Hb.
    destruct Hb as [Hb|[[= _ E]|[]]]; [now apply (Du b)|].
    unfold settleOf in E. rewrite Hrpc in E. discriminate.
Qed.

Lemma durable_exec ds : durable (exec v keys loaded ds (initial keys loaded o)).
Proof.
  assert (H : (wellFormed keys o (exec v keys loaded ds (initial keys loaded o))
               /\ marked v keys (exec v keys loaded ds (initial keys loaded o)))
              /\ durable (exec v keys loaded ds (initial keys loaded o))).
  { apply (exec_invariant v keys loaded
             (fun s => (wellFormed keys o s /\ marked v keys s) /\ durable s)).
    - intros d st [[W M] Du]. split; [split|].
      + now apply wellFormed_resume.
      + now apply (@marked_resume v keys loaded o keys_of).
      + now apply durable_resume.
    - destruct (initial_fields keys loaded o) as (ts & issued & Hs & E).
      split; [split|].
      + apply wellFormed_initial.
      + rewrite E. intros b how i [].
      + rewrite E. intros b i []. }
  apply H.
Qed.

End File.

End MemoryFacts.

Module StateTheorems.
Import Js Batcher Cache Sync JsFacts BatcherFacts CacheFacts StepFacts ItemFacts RunFacts.
Import CommandFacts IdempotenceFacts IdempotenceTheorem ReportFacts FailureFacts.
Import FailureTheorem VerifyRunFacts CallFacts CallTheorems MemoryFacts.

(** At every point of a run the items in memory are fixed by which batches
    had their call fulfilled, not by the order in which the calls returned: an
    item of such a batch is the loaded item with [onChain] true (and, in the
    v2 file, [verifyRun] false), and every other item is as it was loaded. *)
Theorem memory_is_fixed_by_fulfilled_batches v c p o schedule finalSaveOk i :
  program c = Some p -> truthyString (handle v p) = true -> items c = Some o ->
  NoDup (keysOf o) ->
  ((exists b how,
       In (b, how) (ledger (addConfigLines v (Some c) schedule finalSaveOk))
       /\ how <> CommitFailed /\ In i b) ->
   itemAt (keysOf o) (memory (addConfigLines v (Some c) schedule finalSaveOk)) i
   = option_map (commitMark v) (itemAt (keysOf o) o i))
  /\ ((forall b how,
         In (b, how) (ledger (addConfigLines v (Some c) schedule finalSaveOk)) ->
         In i b -> how = CommitFailed) ->
      itemAt (keysOf o) (memory (addConfigLines v (Some c) schedule finalSaveOk)) i
      = itemAt (keysOf o) o i).
Proof.
  intros Hp Hh Ho Hnd. pose proof (ready_intro v c Hp Hh Ho) as Hr.
  rewrite (command_ready schedule finalSaveOk Hr). cbn [ledger memory]. split.
  - apply (@stamped_exec v (keysOf o) c o Hnd schedule i).
  - destruct (@isolated_exec v (keysOf o) c o Hnd schedule) as (_ & U & _ & _).
    apply U.
Qed.

Lemma memory_is_fixed_by_fulfilled_batches_witness :
  ((exists b how,
       In (b, how) (ledger (addConfigLines CliV2 (Some Scenario.twenty)
                              Scenario.mixed true))
       /\ how <> CommitFailed /\ In 3 b) ->
   itemAt (keysOf (Sample.fresh 20))
     (memory (addConfigLines CliV2 (Some Scenario.twenty) Scenario.mixed true)) 3
   = option_map (commitMark CliV2) (itemAt (keysOf (Sample.fresh 20)) (Sample.fresh 20) 3))
  /\ ((forall b how,
         In (b, how) (ledger (addConfigLines CliV2 (Some Scenario.twenty)
                                Scenario.mixed true)) ->
         In 3 b -> how = CommitFailed) ->
      itemAt (keysOf (Sample.fresh 20))
        (memory (addConfigLines CliV2 (Some Scenario.twenty) Scenario.mixed true)) 3
      = itemAt (keysOf (Sample.fresh 20)) (Sample.fresh 20) 3).
Proof.
  apply (@memory_is_fixed_by_fulfilled_batches CliV2 Scenario.twenty Sample.v2Program
           (Sample.fresh 20) Scenario.mixed true 3); try reflexivity.
  apply NoDup_by_count. vm_compute. reflexivity.
Defined.

Lemma stored_view v c o schedule finalSaveOk :
  ready v c o ->
  let st := exec v (keysOf o) c schedule (initial (keysOf o) c o) in
  stored (addConfigLines v (Some c) schedule finalSaveOk)
  = if allFinished st && finalSaveOk
    then Some (withItems c (cacheItems st)) else disk st.
Proof.
  intros Hr. rewrite (command_ready schedule finalSaveOk Hr). cbn.
  destruct (allFinished _), finalSaveOk; reflexivity.
Qed.

Lemma stored_between v c o schedule finalSaveOk :
  ready v c o ->
  exists od,
    stored (addConfigLines v (Some c) schedule finalSaveOk) = Some (withItems c od)
    /\ keysOf od = keysOf o
    /\ (forall k, optRel (evolves v) (get o k) (get od k))
    /\ (forall k, optRel (evolves v) (get od k)
                    (get (memory (addConfigLines v (Some c) schedule finalSaveOk)) k)).
Proof.
  intros Hr. pose proof Hr as (p & Hp & Hh & Ho).
  rewrite (stored_view schedule finalSaveOk Hr).
  rewrite (command_ready schedule finalSaveOk Hr). cbn [memory].
  destruct (@persisted_exec v (keysOf o) c o Ho schedule) as (K & od & Ed & Kd & Lo & Hi).
  destruct (allFinished _ && finalSaveOk).
  - exists (cacheItems (exec v (keysOf o) c schedule (initial (keysOf o) c o))).
    split; [reflexivity|]. split; [exact K|]. split.
    + intros k. eapply optRel_trans; [apply evolves_trans|apply Lo|apply Hi].
    + intros k. apply optRel_refl, evolves_refl.
  - exists od. auto.
Qed.

(** Whatever happens during a run, the cache file afterwards is the loaded
    cache (same [program] and [authority]) with the same keys in the same
    order, and every item in it has the name and the link it was loaded with,
    is on chain if it was on chain when loaded, and is not ahead of the item
    in memory: what is on chain in the file is on chain in memory. *)
Theorem cache_file_keeps_its_inputs v c p o schedule finalSaveOk :
  program c = Some p -> truthyString (handle v p) = true -> items c = Some o ->
  exists od,
    stored (addConfigLines v (Some c) schedule finalSaveOk) = Some (withItems c od)
    /\ keysOf od = keysOf o
    /\ (forall k, optRel (evolves v) (get o k) (get od k))
    /\ (forall k, optRel (evolves v) (get od k)
                    (get (memory (addConfigLines v (Some c) schedule finalSaveOk)) k)).
Proof.
  intros Hp Hh Ho. apply stored_between. now apply (ready_intro v c Hp Hh Ho).
Qed.

Lemma cache_file_keeps_its_inputs_witness :
  exists od,
    stored (addConfigLines CliV2 (Some Scenario.twenty) Scenario.unsaved true)
    = Some (withItems Scenario.twenty od)
    /\ keysOf od = keysOf (Sample.fresh 20)
    /\ (forall k, optRel (evolves CliV2) (get (Sample.fresh 20) k) (get od k))
    /\ (forall k, optRel (evolves CliV2) (get od k)
                    (get (memory (addConfigLines CliV2 (Some Scenario.twenty)
                                    Scenario.unsaved true)) k)).
Proof.
  apply (@cache_file_keeps_its_inputs CliV2 Scenario.twenty Sample.v2Program
           (Sample.fresh 20) Scenario.unsaved true); reflexivity.
Defined.

(** The cache file never shows an item on chain that was not acknowledged: an
    item on chain in the file was on chain when the cache was loaded, or is in
    a batch whose call was fulfilled. *)
Theorem cache_file_claims_only_fulfilled v c p o schedule finalSaveOk i :
  program c = Some p -> truthyString (handle v p) = true -> items c = Some o ->
  NoDup (keysOf o) ->
  isOnChain (keysOf o)
    (fileItems (stored (addConfigLines v (Some c) schedule finalSaveOk))) i = true ->
  isOnChain (keysOf o) o i = true
  \/ exists b how,
       In (b, how) (ledger (addConfigLines v (Some c) schedule finalSaveOk))
       /\ how <> CommitFailed /\ In i b.
Proof.
  intros Hp Hh Ho Hnd Hon. pose proof (ready_intro v c Hp Hh Ho) as Hr.
  destruct (stored_between schedule finalSaveOk Hr) as (od & Es & _ & _ & Hi).
  rewrite Es in Hon. cbn [fileItems withItems items] in Hon.
  pose proof (@isOnChain_evolves v (keysOf o) od _ i Hi Hon) as Hmem.
  destruct (fulfilled_or_not (ledger (addConfigLines v (Some c) schedule finalSaveOk)) i)
    as [Hf|Hn]; [now right|left].
  rewrite (command_ready schedule finalSaveOk Hr) in Hn, Hmem. cbn [ledger memory] in Hn, Hmem.
  destruct (@isolated_exec v (keysOf o) c o Hnd schedule) as (_ & U & _ & _).
  unfold isOnChain in *. now rewrite <- (U i Hn).
Qed.

Lemma cache_file_claims_only_fulfilled_witness :
  isOnChain (keysOf (Sample.fresh 20)) (Sample.fresh 20) 3 = true
  \/ exists b how,
       In (b, how) (ledger (addConfigLines CliV2 (Some Scenario.twenty)
                              Scenario.mixed true))
       /\ how <> CommitFailed /\ In 3 b.
Proof.
  apply (@cache_file_claims_only_fulfilled CliV2 Scenario.twenty Sample.v2Program
           (Sample.fresh 20) Scenario.mixed true 3); try reflexivity.
  apply NoDup_by_count. vm_compute. reflexivity.
Defined.

(** Progress that was saved is never lost: at every point of a run, also with
    calls still in flight, the items of every batch that was committed and
    saved are on chain in the cache file.  When the run has ended with the
    last save done, the file holds the items as they are in memory, so the
    items of a batch whose own save had failed are on chain in it too. *)
Theorem committed_batches_are_on_file v c p o schedule finalSaveOk :
  program c = Some p -> truthyString (handle v p) = true -> items c = Some o ->
  (forall batch i,
      In (batch, Committed) (ledger (addConfigLines v (Some c) schedule finalSaveOk)) ->
      In i batch ->
      isOnChain (keysOf o)
        (fileItems (stored (addConfigLines v (Some c) schedule finalSaveOk))) i = true)
  /\ (forall successful,
        outcome (addConfigLines v (Some c) schedule finalSaveOk) = Done successful ->
        fileItems (stored (addConfigLines v (Some c) schedule finalSaveOk))
        = memory (addConfigLines v (Some c) schedule finalSaveOk)
        /\ forall batch how i,
             In (batch, how) (ledger (addConfigLines v (Some c) schedule finalSaveOk)) ->
             how <> CommitFailed -> In i batch ->
             isOnChain (keysOf o)
               (fileItems (stored (addConfigLines v (Some c) schedule finalSaveOk))) i
             = true).
Proof.
  intros Hp Hh Ho. pose proof (ready_intro v c Hp Hh Ho) as Hr.
  rewrite (stored_view schedule finalSaveOk Hr).
  rewrite (command_ready schedule finalSaveOk Hr). cbn [ledger outcome memory].
  set (st := exec v (keysOf o) c schedule (initial (keysOf o) c o)).
  pose proof (@marked_exec v (keysOf o) c o eq_refl schedule) as M. fold st in M.
  pose proof (@durable_exec v (keysOf o) c o eq_refl schedule) as Du. fold st in Du.
  split.
  - intros batch i Hb Hi. destruct (allFinished st && finalSaveOk).
    + cbn [fileItems withItems items].
      apply (@marked_on_chain v (keysOf o) st batch Committed i M Hb); [discriminate|exact Hi].
    + now apply (Du batch).
  - intros successful Hdone.
    destruct (allFinished st); [|discriminate]. destruct finalSaveOk; [|discriminate].
    cbn [andb fileItems withItems items]. split; [reflexivity|].
    intros batch how i Hb Hh' Hi.
    now apply (@marked_on_chain v (keysOf o) st batch how i M Hb).
Qed.

Lemma committed_batches_are_on_file_witness :
  (forall batch i,
      In (batch, Committed)
         (ledger (addConfigLines CliV2 (Some Scenario.twenty) Scenario.halfway true)) ->
      In i batch ->
      isOnChain (keysOf (Sample.fresh 20))
        (fileItems (stored (addConfigLines CliV2 (Some Scenario.twenty)
                              Scenario.halfway true))) i = true)
  /\ (forall successful,
        outcome (addConfigLines CliV2 (Some Scenario.twenty) Scenario.halfway true)
        = Done successful ->
        fileItems (stored (addConfigLines CliV2 (Some Scenario.twenty)
                             Scenario.halfway true))
        = memory (addConfigLines CliV2 (Some Scenario.twenty) Scenario.halfway true)
        /\ forall batch how i,
             In (batch, how)
                (ledger (addConfigLines CliV2 (Some Scenario.twenty)
                           Scenario.halfway true)) ->
             how <> CommitFailed -> In i batch ->
             isOnChain (keysOf (Sample.fresh 20))
               (fileItems (stored (addConfigLines CliV2 (Some Scenario.twenty)
                                     Scenario.halfway true))) i
             = true).
Proof.
  apply (@committed_batches_are_on_file CliV2 Scenario.twenty Sample.v2Program
           (Sample.fresh 20) Scenario.halfway true); reflexivity.
Defined.

End StateTheorems.

(** ** One run after another *)

Module RerunFacts.
Import Js Batcher Cache Sync JsFacts BatcherFacts CacheFacts StepFacts ItemFacts RunFacts.
Import CommandFacts IdempotenceFacts IdempotenceTheorem ReportFacts FailureFacts.
Import FailureTheorem VerifyRunFacts CallFacts CallTheorems MemoryFacts StateTheorems.

(** Nothing goes wrong at this decision. *)
Definition allWell (d : decision) : Prop := rpcOk d = true /\ saveOk d = true.

Section Loop.

Variable v : version.
Variable keys : list string.
Variable loaded : CacheContent.

Lemma flag_kept ds st :
  Forall allWell ds ->
  addConfigSuccessful (exec v keys loaded ds st) = addConfigSuccessful st.
Proof.
  intros H. revert st. induction H as [|d ds [Hr Hs] _ IH]; intros st; [reflexivity|].
  cbn [exec fold_left]. fold (exec v keys loaded ds (resume v keys loaded d st)).
  rewrite IH.
  destruct (resume_view v keys loaded d st)
    as [->|batch rest t issued _ _ _ _ Hf _ _ _]; [reflexivity|].
  rewrite Hf. unfold settleOf. rewrite Hr, Hs. apply andb_true_r.
Qed.

Lemma drain_allWell fuel st : Forall allWell (drain v keys loaded fuel st).
Proof.
  revert st. induction fuel as [|fuel IH]; intros st; cbn [drain]; [constructor|].
  destruct (firstAwaiting (tasks st)); constructor; [split; reflexivity|apply IH].
Qed.

End Loop.

(** When every call is fulfilled and every save works, a run that has ended
    reports [Successful = true], every item is on chain in memory, and the
    cache file holds the items as they are in memory; and there is such a run
    for every cache that passes the reads before the loop. *)
Theorem run_without_failures v c p o :
  program c = Some p -> truthyString (handle v p) = true -> items c = Some o ->
  (forall schedule,
      Forall allWell schedule ->
      outcome (addConfigLines v (Some c) schedule true) <> InFlight ->
      outcome (addConfigLines v (Some c) schedule true) = Done true
      /\ (forall i, i < length o ->
            isOnChain (keysOf o) (memory (addConfigLines v (Some c) schedule true)) i
            = true)
      /\ fileItems (stored (addConfigLines v (Some c) schedule true))
         = memory (addConfigLines v (Some c) schedule true))
  /\ exists schedule,
       Forall allWell schedule
       /\ outcome (addConfigLines v (Some c) schedule true) = Done true.
Proof.
  intros Hp Hh Ho. pose proof (ready_intro v c Hp Hh Ho) as Hr.
  assert (Hflag : forall schedule, Forall allWell schedule ->
            addConfigSuccessful (exec v (keysOf o) c schedule (initial (keysOf o) c o))
            = true).
  { intros schedule Hw. rewrite flag_kept by assumption.
    destruct (initial_fields (keysOf o) c o) as (ts & issued & _ & ->). reflexivity. }
  split.
  - intros schedule Hw. rewrite (command_ready schedule true Hr). cbn.
    destruct (allFinished _) eqn:Hfin; [intros _|contradiction].
    rewrite (Hflag _ Hw). split; [reflexivity|]. split; [|reflexivity].
    intros i Hi. rewrite <- length_keysOf in Hi.
    apply (@all_on_after_success v (keysOf o) c o eq_refl schedule Hfin (Hflag _ Hw) i Hi).
  - set (st := initial (keysOf o) c o).
    exists (drain v (keysOf o) c (length (pendingBatches (tasks st))) st).
    split; [apply drain_allWell|].
    rewrite (command_ready _ true Hr). cbn. fold st.
    rewrite drain_finishes by lia. f_equal. apply Hflag, drain_allWell.
Qed.

Lemma run_without_failures_witness :
  (forall schedule,
      Forall allWell schedule ->
      outcome (addConfigLines CliV2 (Some Scenario.twenty) schedule true) <> InFlight ->
      outcome (addConfigLines CliV2 (Some Scenario.twenty) schedule true) = Done true
      /\ (forall i, i < length (Sample.fresh 20) ->
            isOnChain (keysOf (Sample.fresh 20))
              (memory (addConfigLines CliV2 (Some Scenario.twenty) schedule true)) i
            = true)
      /\ fileItems (stored (addConfigLines CliV2 (Some Scenario.twenty) schedule true))
         = memory (addConfigLines CliV2 (Some Scenario.twenty) schedule true))
  /\ exists schedule,
       Forall allWell schedule
       /\ outcome (addConfigLines CliV2 (Some Scenario.twenty) schedule true) = Done true.
Proof.
  apply (@run_without_failures CliV2 Scenario.twenty Sample.v2Program (Sample.fresh 20));
    reflexivity.
Defined.

(** Retrying is running again: after a run that has ended and saved, a second
    run on the cache file submits, by the time it ends, exactly the batches
    whose call the first run saw rejected, whatever happens to the calls of the
    second run. *)
Theorem rerun_submits_the_rejected_batches
    v c p o schedule successful schedule' finalSaveOk batch :
  program c = Some p -> truthyString (handle v p) = true -> items c = Some o ->
  NoDup (keysOf o) ->
  outcome (addConfigLines v (Some c) schedule true) = Done successful ->
  outcome (addConfigLines v (stored (addConfigLines v (Some c) schedule true))
             schedule' finalSaveOk) <> InFlight ->
  (In batch
      (map indexes
         (remote (addConfigLines v (stored (addConfigLines v (Some c) schedule true))
                    schedule' finalSaveOk)))
   <-> In (batch, CommitFailed) (ledger (addConfigLines v (Some c) schedule true))).
Proof.
  intros Hp Hh Ho Hnd. pose proof (ready_intro v c Hp Hh Ho) as Hr.
  rewrite (stored_view schedule true Hr).
  rewrite (command_ready schedule true Hr). cbn [outcome ledger].
  set (st1 := exec v (keysOf o) c schedule (initial (keysOf o) c o)).
  destruct (allFinished st1) eqn:Hfin1; [intros _|discriminate]. cbn [andb].
  assert (Hk : keysOf (cacheItems st1) = keysOf o).
  { unfold st1. rewrite keysOf_exec. now rewrite cacheItems_initial. }
  assert (Hr' : ready v (withItems c (cacheItems st1)) (cacheItems st1)).
  { exists p. cbn. auto. }
  rewrite (command_ready schedule' finalSaveOk Hr'). cbn [outcome remote].
  rewrite Hk.
  match goal with
  | |- (if ?a then _ else _) <> _ -> _ => destruct a eqn:Hfin2
  end; [intros _|intros Hend; now contradiction Hend].
  pose proof (@submitted_iff v (cacheItems st1) (withItems c (cacheItems st1)) schedule' batch)
    as I2.
  rewrite Hk in I2. rewrite (I2 Hnd Hfin2). clear I2.
  pose proof (@submitted_iff v o c schedule batch Hnd Hfin1) as I1. fold st1 in I1.
  pose proof (@booked_exec v (keysOf o) c o schedule) as (S & _ & C). fold st1 in S, C.
  pose proof (wellFormed_exec v (keysOf o) c o schedule) as (_ & _ & W). fold st1 in W.
  pose proof (@marked_exec v (keysOf o) c o eq_refl schedule) as M. fold st1 in M.
  pose proof (get_exec v (keysOf o) c schedule (initial (keysOf o) c o)) as Ev.
  fold st1 in Ev. rewrite cacheItems_initial in Ev.
  unfold allFinished in Hfin1.
  split.
  - intros (Hb & i & Hi & Hoff).
    assert (Hoff0 : isOnChain (keysOf o) o i = false).
    { destruct (isOnChain (keysOf o) o i) eqn:E; [|reflexivity].
      rewrite (@isOnChain_evolves v (keysOf o) o _ i Ev E) in Hoff. discriminate. }
    assert (Hcalled : In batch (map indexes (calls st1))) by (apply I1; eauto).
    destruct (C _ Hcalled) as [(how & Hs)|Hw];
      [|rewrite (finished_awaited _ Hfin1) in Hw; destruct Hw].
    destruct how; try exact Hs; exfalso.
    + rewrite (@marked_on_chain v (keysOf o) st1 batch Committed i M Hs) in Hoff;
        [discriminate|discriminate|exact Hi].
    + rewrite (@marked_on_chain v (keysOf o) st1 batch SaveFailed i M Hs) in Hoff;
        [discriminate|discriminate|exact Hi].
  - intros Hs. split; [now apply (W batch CommitFailed)|].
    destruct (proj1 I1 (S _ _ Hs)) as (_ & i & Hi & Hoff).
    exists i. split; [exact Hi|].
    pose proof (@rejected_batch_unchanged v (keysOf o) c o Hnd schedule batch i Hs Hi) as E.
    fold st1 in E. unfold isOnChain in *. now rewrite E.
Qed.

Lemma rerun_submits_the_rejected_batches_witness :
  In (seq 10 10)
     (map indexes
        (remote (addConfigLines CliV2
                   (stored (addConfigLines CliV2 (Some Scenario.twenty) Scenario.mixed true))
                   Scenario.halfway true)))
  <-> In (seq 10 10, CommitFailed)
         (ledger (addConfigLines CliV2 (Some Scenario.twenty) Scenario.mixed true)).
Proof.
  apply (@rerun_submits_the_rejected_batches CliV2 Scenario.twenty Sample.v2Program
           (Sample.fresh 20) Scenario.mixed false Scenario.halfway true (seq 10 10));
    try reflexivity.
  - apply NoDup_by_count. vm_compute. reflexivity.
  - vm_compute. discriminate.
Defined.

End RerunFacts.

(** ** The creation command as a whole *)

Module CreationFacts.
Import Js Batcher Cache Sync Create JsFacts BatcherFacts CacheFacts StepFacts ItemFacts.
Import RunFacts CommandFacts IdempotenceFacts IdempotenceTheorem ReportFacts FailureFacts.
Import FailureTheorem VerifyRunFacts CallFacts CallTheorems MemoryFacts StateTheorems.

(** The cache the creation command wrote before it went on to the config
    lines. *)
Definition createdCache (v : version) (w : World) (id address : string) (o : Items)
  : CacheContent :=
  {| program := Some (newProgram v id address);
     authority := Some (walletKey w);
     items := Some o |}.

(** The creation command either leaves the cache file alone, having made no
    call or the creation call only, or it has created the collection, saved
    the cache and gone through [addConfigLines] on what it saved. *)
Inductive createView (v : version) (cacheFile : option CacheContent) (w : World)
    (r : Outcome) : Prop :=
| Stopped :
    file r = cacheFile ->
    (remoteCalls r = []
     \/ (fileItems cacheFile <> []
         /\ remoteCalls r = [CreateCollection (length (fileItems cacheFile))])) ->
    (exists e, ended r = Threw e) ->
    createView v cacheFile w r
| Went id address :
    fileItems cacheFile <> [] ->
    created w = Some (id, address) ->
    ended r = outcome (addConfigLines v
                         (Some (createdCache v w id address (fileItems cacheFile)))
                         (schedule w) (finalSaveOk w)) ->
    file r = stored (addConfigLines v
                       (Some (createdCache v w id address (fileItems cacheFile)))
                       (schedule w) (finalSaveOk w)) ->
    remoteCalls r
    = CreateCollection (length (fileItems cacheFile))
        :: map AddConfigLines
             (remote (addConfigLines v
                        (Some (createdCache v w id address (fileItems cacheFile)))
                        (schedule w) (finalSaveOk w))) ->
    createView v cacheFile w r.

Lemma create_view v cacheFile w :
  createView v cacheFile w (create_candy_machine v cacheFile w).
Proof.
  unfold create_candy_machine, loadCache.
  destruct cacheFile as [c|];
    [|apply Stopped; cbn; eauto].
  destruct (program c) as [p|] eqn:Ep; [apply Stopped; cbn; eauto|].
  destruct (items c) as [o|] eqn:Eo; [|apply Stopped; cbn; eauto].
  assert (Ef : fileItems (Some c) = o) by (cbn; now rewrite Eo).
  unfold keysOf. rewrite length_map.
  destruct (Nat.eqb_spec (length o) 0) as [E0|Hne]; [apply Stopped; cbn; eauto|].
  assert (Hnil : o <> []) by (intros ->; now apply Hne).
  destruct (setupOk w); cbn [negb]; [|apply Stopped; cbn; eauto].
  destruct (created w) as [[id address]|] eqn:Ec.
  - destruct (createSaveOk w).
    + apply Went with (id := id) (address := address); rewrite ?Ef; auto.
    + apply Stopped; cbn [file remoteCalls ended saveCache]; rewrite ?Ef; eauto.
  - apply Stopped; cbn [file remoteCalls ended]; rewrite ?Ef; eauto.
Qed.

(** What [addConfigLines] leaves in the file has the [program] and the
    [authority] of the cache it was given. *)
Lemma stored_keeps_program v c schedule finalSaveOk :
  exists c',
    stored (addConfigLines v (Some c) schedule finalSaveOk) = Some c'
    /\ program c' = program c /\ authority c' = authority c.
Proof.
  destruct (command_view v (Some c) schedule finalSaveOk) as [e E|c0 o [= <-] Hr _ _ _ _].
  - rewrite E. exists c. auto.
  - destruct (stored_between schedule finalSaveOk Hr) as (od & Es & _).
    rewrite Es. exists (withItems c od). auto.
Qed.

(** The remote calls of the creation command come in one order: when there is
    any call, the first is the creation of the collection, made once, for as
    many items as the cache file holds, at least one; every later call is an
    [addConfigLines] call, and there is one only if the creation was fulfilled
    and the cache file then holds the new [program]. *)
Theorem creation_comes_first v cacheFile w call rest :
  remoteCalls (create_candy_machine v cacheFile w) = call :: rest ->
  call = CreateCollection (length (fileItems cacheFile))
  /\ 0 < length (fileItems cacheFile)
  /\ Forall (fun x => exists cl, x = AddConfigLines cl) rest
  /\ (rest <> [] ->
      exists id address c',
        created w = Some (id, address)
        /\ file (create_candy_machine v cacheFile w) = Some c'
        /\ program c' = Some (newProgram v id address)
        /\ authority c' = Some (walletKey w)).
Proof.
  intros E.
  assert (Hpos : forall l : Items, l <> [] -> 0 < length l).
  { intros [|x l] H; [contradiction|cbn; lia]. }
  destruct (create_view v cacheFile w) as [_ [Hcalls|[Hne Hcalls]] _|id address Hne Hc _ Hf Hcalls];
    rewrite Hcalls in E.
  - discriminate.
  - injection E as <- <-. repeat split; auto. intros H. now contradiction H.
  - injection E as <- <-. split; [reflexivity|]. split; [auto|]. split.
    + apply Forall_forall. intros x Hx. apply in_map_iff in Hx.
      destruct Hx as (cl & <- & _). eauto.
    + intros _. exists id, address.
      destruct (stored_keeps_program v (createdCache v w id address (fileItems cacheFile))
                  (schedule w) (finalSaveOk w)) as (c' & Es & Pp & Pa).
      exists c'. rewrite Hf. auto.
Qed.

Lemma creation_comes_first_witness :
  CreateCollection 20 = CreateCollection (length (fileItems (Some
      {| program := None; authority := None; items := Some (Sample.fresh 20) |})))
  /\ 0 < length (fileItems (Some
      {| program := None; authority := None; items := Some (Sample.fresh 20) |}))
  /\ Forall (fun x => exists cl, x = AddConfigLines cl)
       [AddConfigLines (callFor (keysOf (Sample.fresh 20)) (Sample.fresh 20) (seq 0 10));
        AddConfigLines (callFor (keysOf (Sample.fresh 20)) (Sample.fresh 20) (seq 10 10))]
  /\ ([AddConfigLines (callFor (keysOf (Sample.fresh 20)) (Sample.fresh 20) (seq 0 10));
       AddConfigLines (callFor (keysOf (Sample.fresh 20)) (Sample.fresh 20) (seq 10 10))]
      <> [] ->
      exists id address c',
        created (mkWorld true (Some ("u1", "CM1")%string) "wallet" true
                   Scenario.bothOk true) = Some (id, address)
        /\ file (create_candy_machine CliV2
                   (Some {| program := None; authority := None;
                            items := Some (Sample.fresh 20) |})
                   (mkWorld true (Some ("u1", "CM1")%string) "wallet" true
                      Scenario.bothOk true)) = Some c'
        /\ program c' = Some (newProgram CliV2 id address)
        /\ authority c'
           = Some (walletKey (mkWorld true (Some ("u1", "CM1")%string) "wallet" true
                                Scenario.bothOk true))).
Proof.
  apply (@creation_comes_first CliV2
           (Some {| program := None; authority := None; items := Some (Sample.fresh 20) |})
           (mkWorld true (Some ("u1", "CM1")%string) "wallet" true Scenario.bothOk true)).
  reflexivity.
Defined.

(** A creation that changed the cache file cannot be repeated: the file then
    holds a [program], and either command file refuses to create again, before
    any remote call and without touching the file. *)
Theorem creation_is_refused_after_creation v cacheFile w v' w' :
  file (create_candy_machine v cacheFile w) <> cacheFile ->
  create_candy_machine v' (file (create_candy_machine v cacheFile w)) w'
  = {| ended := Threw (Error "a program existed previously. clear it our first if you intent to create a new candy machine");
       file := file (create_candy_machine v cacheFile w);
       remoteCalls := [] |}.
Proof.
  intros Hch.
  destruct (create_view v cacheFile w) as [Hf _ _|id address Hne Hc _ Hf Hcalls];
    [contradiction|].
  destruct (stored_keeps_program v (createdCache v w id address (fileItems cacheFile))
              (schedule w) (finalSaveOk w)) as (c' & Es & Pp & _).
  rewrite Hf, Es. unfold create_candy_machine, loadCache. now rewrite Pp.
Qed.

Lemma creation_is_refused_after_creation_witness :
  create_candy_machine CliV1
    (file (create_candy_machine CliV2
             (Some {| program := None; authority := None;
                      items := Some (Sample.fresh 20) |})
             (mkWorld true (Some ("u1", "CM1")%string) "wallet" true
                Scenario.mixed true)))
    (mkWorld true (Some ("u2", "CM2")%string) "wallet" true [] true)
  = {| ended := Threw (Error "a program existed previously. clear it our first if you intent to create a new candy machine");
       file := file (create_candy_machine CliV2
                       (Some {| program := None; authority := None;
                                items := Some (Sample.fresh 20) |})
                       (mkWorld true (Some ("u1", "CM1")%string) "wallet" true
                          Scenario.mixed true));
       remoteCalls := [] |}.
Proof.
  apply (@creation_is_refused_after_creation CliV2
           (Some {| program := None; authority := None; items := Some (Sample.fresh 20) |})
           (mkWorld true (Some ("u1", "CM1")%string) "wallet" true Scenario.mixed true)
           CliV1
           (mkWorld true (Some ("u2", "CM2")%string) "wallet" true [] true)).
  vm_compute. discriminate.
Defined.

(** A cache is tied to the command file that created the collection: after a
    creation that changed the cache file, [addConfigLines] of the other command
    file throws [missing program config] on it, calls nothing and leaves the
    file as it is. *)
Theorem cache_is_tied_to_its_version v cacheFile w v' schedule' finalSaveOk' :
  file (create_candy_machine v cacheFile w) <> cacheFile ->
  v' <> v ->
  addConfigLines v' (file (create_candy_machine v cacheFile w)) schedule' finalSaveOk'
  = aborted (Error "missing program config") (file (create_candy_machine v cacheFile w)).
Proof.
  intros Hch Hv.
  destruct (create_view v cacheFile w) as [Hf _ _|id address Hne Hc _ Hf Hcalls];
    [contradiction|].
  destruct (stored_keeps_program v (createdCache v w id address (fileItems cacheFile))
              (schedule w) (finalSaveOk w)) as (c' & Es & Pp & _).
  rewrite Hf, Es. unfold addConfigLines, loadCache. rewrite Pp. cbn [program createdCache].
  assert (Hh : handle v' (newProgram v id address) = None).
  { destruct v, v'; try reflexivity; now contradiction Hv. }
  rewrite Hh. reflexivity.
Qed.

Lemma cache_is_tied_to_its_version_witness :
  addConfigLines CliV1
    (file (create_candy_machine CliV2
             (Some {| program := None; authority := None;
                      items := Some (Sample.fresh 20) |})
             (mkWorld true (Some ("u1", "CM1")%string) "wallet" true
                Scenario.mixed true)))
    Scenario.bothOk true
  = aborted (Error "missing program config")
      (file (create_candy_machine CliV2
               (Some {| program := None; authority := None;
                        items := Some (Sample.fresh 20) |})
               (mkWorld true (Some ("u1", "CM1")%string) "wallet" true
                  Scenario.mixed true))).
Proof.
  apply (@cache_is_tied_to_its_version CliV2
           (Some {| program := None; authority := None; items := Some (Sample.fresh 20) |})
           (mkWorld true (Some ("u1", "CM1")%string) "wallet" true Scenario.mixed true)
           CliV1 Scenario.bothOk true).
  - vm_compute. discriminate.
  - discriminate.
Defined.

End CreationFacts.
